(** * Craps: a shallow embedding of [Lab 01 Craps/craps.py]

    The program plays the casino game of craps for one player.  Its only
    effects are drawing dice from [random.randint], printing on the
    terminal and raising Python exceptions.  They are modelled by a small
    monad over a [World] that holds the values the random generator is
    going to produce and the calls of [print] made so far. *)

From Stdlib Require Import ZArith QArith List String Ascii Bool Lia.
Import ListNotations.

Local Open Scope string_scope.
Local Open Scope list_scope.
Local Open Scope Z_scope.

(** ** Values, exceptions and the world *)

(** A value handed to [print].  The float produced by [wins / numGames] is
    kept as the exact quotient; the Python float is its nearest double (a
    zero quotient by a negative count is the float -0.0). *)
Inductive pyval : Type :=
| VStr (s : string)
| VInt (z : Z)
| VFloat (q : Q).

(** One call of [print]: its arguments, left to right. *)
Definition line : Type := list pyval.

(** The built-in exceptions the program can meet. *)
Inductive exn : Type :=
| ZeroDivisionError
| ValueError (literal : string)
| IndexError.

(** [entropy] is the script of the random generator, one entry per call of
    [random.randint]; [stdout] lists the calls of [print], oldest first. *)
Record World : Type := mkWorld {
  entropy : list Z;
  stdout : list line
}.

(** The end of a run.  [Starved] says that the script of the generator ran
    out while the program was still asking for dice: the run is unfinished
    and nothing is known of its end. *)
Inductive result (A : Type) : Type :=
| Ok (a : A) (w : World)
| Raise (e : exn) (w : World)
| Starved.

Arguments Ok {A} a w.
Arguments Raise {A} e w.
Arguments Starved {A}.

Definition M (A : Type) : Type := World -> result A.

Definition ret {A} (a : A) : M A := fun w => Ok a w.

Definition bind {A B} (m : M A) (k : A -> M B) : M B :=
  fun w =>
    match m w with
    | Ok a w' => k a w'
    | Raise e w' => Raise e w'
    | Starved => Starved
    end.

Definition raise {A} (e : exn) : M A := fun w => Raise e w.

Declare Scope py_scope.
Delimit Scope py_scope with py.
Notation "x <- m ;; k" := (bind m (fun x => k))
  (at level 61, m at next level, right associativity) : py_scope.
Notation "m ;;; k" := (bind m (fun _ => k))
  (at level 61, right associativity) : py_scope.
Local Open Scope py_scope.

(** [if c: body] with no [else]. *)
Definition when (c : bool) (body : M unit) : M unit :=
  if c then body else ret tt.

(** ** Built-ins *)

Definition print (args : line) : M unit :=
  fun w => Ok tt (mkWorld (entropy w) (stdout w ++ [args])).

(** [random.randint(lo, hi)] for [lo <= hi] (the program calls it with 1
    and 6 only): the next entry of the script, folded into [lo..hi]; an
    entry already in that range is returned as it is. *)
Definition randint (lo hi : Z) : M Z :=
  fun w =>
    match entropy w with
    | [] => Starved
    | r :: rest => Ok (lo + (r - lo) mod (hi - lo + 1)) (mkWorld rest (stdout w))
    end.

(** [a / b] on ints: true division. *)
Definition truediv (a b : Z) : M Q :=
  if b =? 0 then raise ZeroDivisionError
  else ret (inject_Z a / inject_Z b)%Q.

(** [xs[i]] for an index that is not negative. *)
Definition getitem {A} (xs : list A) (i : nat) : M A :=
  match nth_error xs i with
  | Some x => ret x
  | None => raise IndexError
  end.

(** [for i in range(n): s = body(i, s)], from [s]. *)
Fixpoint for_from {St} (count : nat) (i : Z) (body : Z -> St -> M St) (s : St) : M St :=
  match count with
  | O => ret s
  | S count' => s' <- body i s ;; for_from count' (i + 1) body s'
  end.

Definition for_range {St} (n : Z) (body : Z -> St -> M St) (s : St) : M St :=
  for_from (Z.to_nat n) 0 body s.

(** [while cond(s): s = body(s)], from [s], for at most [fuel] tests of the
    condition. *)
Fixpoint while_fuel {St} (fuel : nat) (cond : St -> bool) (body : St -> M St) (s : St) : M St :=
  match fuel with
  | O => fun _ => Starved
  | S fuel' =>
      if cond s then s' <- body s ;; while_fuel fuel' cond body s'
      else ret s
  end.

(** Both loops of the program roll the dice in every iteration, so a loop
    never tests its condition more often than the script has entries left,
    plus once (see [while_fuel_enough]). *)
Definition while {St} (cond : St -> bool) (body : St -> M St) (s : St) : M St :=
  fun w => while_fuel (S (List.length (entropy w))) cond body s w.

(** ** The program *)

Definition tab : string := String "009"%char EmptyString.
Definition nl : string := String "010"%char EmptyString.

Definition roll2 (verbose : bool) : M Z :=
  let sides := 6 in
  throw1 <- randint 1 sides ;;
  throw2 <- randint 1 sides ;;
  let sum := throw1 + throw2 in
  when verbose
    (print [VStr (tab ++ "Threw")%string; VInt throw1; VStr "+"; VInt throw2;
            VStr "="; VInt sum]) ;;;
  ret sum.

Definition comeOut (verbose : bool) : M Z :=
  when verbose (print [VStr "Phase I, the Come Out"]) ;;;
  target <- roll2 verbose ;;
  when verbose (print [VStr (tab ++ "Target established:")%string; VInt target]) ;;;
  ret target.

Definition point (target : Z) (verbose : bool) : M bool :=
  when verbose (print [VStr "Phase II, the Point"]) ;;;
  total <- roll2 verbose ;;
  total <- while (fun total => negb (total =? 7) && negb (total =? target))
                 (fun _ => roll2 verbose) total ;;
  let win := total =? target in
  ret win.

Definition playToReplay (verbose : bool) : M bool :=
  let replay := false in
  target <- comeOut verbose ;;
  replay <-
    (if (target =? 7) || (target =? 11) then
       when verbose
         (print [VStr "A natural! You've won the game, but must yield the dice to the next player."]) ;;;
       ret false
     else if (target =? 2) || (target =? 3) || (target =? 12) then
       when verbose (print [VStr "You've crapped out, but may play again."]) ;;;
       ret true
     else
       replay <- point target verbose ;;
       when verbose
         (if replay : bool
          then print [VStr "A pass! You've won the game, and may play again."]
          else print [VStr "You've sevened out, and must yield the dice to the next player."]) ;;;
       ret replay) ;;
  ret replay.

Definition playToWin (verbose : bool) : M bool :=
  let win := false in
  target <- comeOut verbose ;;
  win <-
    (if (target =? 7) || (target =? 11) then
       when verbose
         (print [VStr "A natural! You've won the game, but must yield the dice to the next player."]) ;;;
       ret true
     else if (target =? 2) || (target =? 3) || (target =? 12) then
       when verbose (print [VStr "You've crapped out, but may play again."]) ;;;
       ret false
     else
       win <- point target verbose ;;
       when verbose
         (if win : bool
          then print [VStr "A pass! You've won the game, and may play again."]
          else print [VStr "You've sevened out, and must yield the dice to the next player."]) ;;;
       ret win) ;;
  ret win.

Definition test : M unit :=
  print [VStr "Welcome to the craps table."] ;;;
  replay <- playToReplay true ;;
  while (fun replay : bool => replay)
        (fun _ => print [VStr (nl ++ "Playing again...")%string] ;;; playToReplay true)
        replay ;;;
  ret tt.

Definition computeOdds (numGames : Z) : M Q :=
  let wins := 0 in
  wins <- for_range numGames
            (fun game wins =>
               won <- playToWin false ;;
               if Bool.eqb won true then ret (wins + 1) else ret wins)
            wins ;;
  odds <- truediv wins numGames ;;
  print [VStr (nl ++ "Out of")%string; VInt numGames; VStr "games:"] ;;;
  print [VStr (tab ++ "Wins:")%string; VInt wins] ;;;
  print [VStr (tab ++ "Odds:")%string; VFloat odds] ;;;
  ret odds.

Section Main.

(** The built-in [int] on a [str] belongs to the interpreter, not to the
    program: [py_int s] is its value, [None] where it raises [ValueError].
    [ascii_int] below is an instance. *)
Variable py_int : string -> option Z.

Definition int (s : string) : M Z :=
  match py_int s with
  | Some z => ret z
  | None => raise (ValueError s)
  end.

Definition main (args : list string) : M unit :=
  if (1 <? List.length args)%nat then
    arg1 <- getitem args 1 ;;
    if (arg1 =? "test")%string then test
    else
      arg1 <- getitem args 1 ;;
      if (arg1 =? "odds")%string then
        let numGames := 1000 in
        numGames <-
          (if (2 <? List.length args)%nat
           then arg2 <- getitem args 2 ;; int arg2
           else ret numGames) ;;
        computeOdds numGames ;;;
        ret tt
      else ret tt
  else
    playToWin true ;;;
    ret tt.

End Main.

(** ** An instance of [int] for ASCII text

    Base 10, as [int(s)] reads it: blanks around the literal are dropped,
    one sign may lead, and single underscores may sit between digits.  The
    bound some interpreters put on the number of digits is left out; the
    properties of [main] below hold for any [py_int]. *)

Definition is_space (c : ascii) : bool :=
  let n := nat_of_ascii c in
  ((9 <=? n) && (n <=? 13) || (n =? 32))%nat.

Definition digit_of (c : ascii) : option Z :=
  let n := nat_of_ascii c in
  if ((48 <=? n) && (n <=? 57))%nat then Some (Z.of_nat (n - 48)) else None.

Fixpoint lstrip (cs : list ascii) : list ascii :=
  match cs with
  | c :: cs' => if is_space c then lstrip cs' else cs
  | [] => []
  end.

Definition strip (cs : list ascii) : list ascii :=
  rev (lstrip (rev (lstrip cs))).

(** [after_digit] tells whether the character just read was a digit: an
    underscore is accepted only then, and the literal must not end on one. *)
Fixpoint digits (acc : Z) (after_digit : bool) (cs : list ascii) : option Z :=
  match cs with
  | [] => if after_digit then Some acc else None
  | c :: cs' =>
      match digit_of c with
      | Some d => digits (10 * acc + d) true cs'
      | None =>
          if (Ascii.eqb c "_" && after_digit)%bool then digits acc false cs'
          else None
      end
  end.

Definition ascii_int (s : string) : option Z :=
  match strip (list_ascii_of_string s) with
  | "+"%char :: cs => digits 0 false cs
  | "-"%char :: cs => option_map Z.opp (digits 0 false cs)
  | cs => digits 0 false cs
  end.

(** ** Scripts of dice *)

(** The face [random.randint(1, 6)] shows for a script entry. *)
Definition face (r : Z) : Z := 1 + (r - 1) mod 6.

(** A roll is two consecutive entries of the script. *)
Definition roll : Type := (Z * Z)%type.

Definition roll_sum (r : roll) : Z := face (fst r) + face (snd r).

Fixpoint dice (rolls : list roll) : list Z :=
  match rolls with
  | [] => []
  | (a, b) :: rolls' => a :: b :: dice rolls'
  end.

(** What [roll2] prints for a roll when it is verbose. *)
Definition threw (r : roll) : line :=
  [VStr (tab ++ "Threw")%string; VInt (face (fst r)); VStr "+";
   VInt (face (snd r)); VStr "="; VInt (roll_sum r)].

Definition narrate (verbose : bool) (lines : list line) : list line :=
  if verbose then lines else [].

(** ** Notions for the statements *)

(** The test of the loop in [point]. *)
Definition keeps_rolling (target total : Z) : bool :=
  negb (total =? 7) && negb (total =? target).

(** [m] takes at least [k] entries off the script whenever it returns. *)
Definition uses_dice {A} (k : nat) (m : M A) : Prop :=
  forall w a w', m w = Ok a w' ->
    (List.length (entropy w') + k <= List.length (entropy w))%nat.

(** What a run shows apart from its printing. *)
Inductive observation (A : Type) : Type :=
| Returned (a : A) (left : list Z)
| Raised (e : exn) (left : list Z)
| Unfinished.

Arguments Returned {A} a left.
Arguments Raised {A} e left.
Arguments Unfinished {A}.

(** The result of a run and the script it leaves, without [stdout]. *)
Definition observe {A} (r : result A) : observation A :=
  match r with
  | Ok a w => Returned a (entropy w)
  | Raise e w => Raised e (entropy w)
  | Starved => Unfinished
  end.

(** [m1] and [m2] show the same on any two worlds with the same script. *)
Definition same_run {A} (m1 m2 : M A) : Prop :=
  forall w1 w2, entropy w1 = entropy w2 -> observe (m1 w1) = observe (m2 w2).

(** [m] ends in no exception. *)
Definition never_raises {A} (m : M A) : Prop :=
  forall w e w', m w <> Raise e w'.

(** The lines of the verdicts. *)
Definition natural_msg : line :=
  [VStr "A natural! You've won the game, but must yield the dice to the next player."].
Definition craps_msg : line :=
  [VStr "You've crapped out, but may play again."].
Definition pass_msg : line :=
  [VStr "A pass! You've won the game, and may play again."].
Definition seven_out_msg : line :=
  [VStr "You've sevened out, and must yield the dice to the next player."].

Definition is_natural (target : Z) : bool := (target =? 7) || (target =? 11).
Definition is_craps (target : Z) : bool :=
  (target =? 2) || (target =? 3) || (target =? 12).

(** [n] silent calls of [playToWin], one after the other; their results in
    the order of the calls. *)
Fixpoint play_games (n : nat) : M (list bool) :=
  match n with
  | O => ret []
  | S n' =>
      won <- playToWin false ;;
      later <- play_games n' ;;
      ret (won :: later)
  end.

(** The number of [true] in a list of results. *)
Definition count_wins (results : list bool) : Z :=
  Z.of_nat (count_occ bool_dec results true).

(** The three lines [computeOdds] prints at its end. *)
Definition report (numGames wins : Z) (odds : Q) : list line :=
  [[VStr (nl ++ "Out of")%string; VInt numGames; VStr "games:"];
   [VStr (tab ++ "Wins:")%string; VInt wins];
   [VStr (tab ++ "Odds:")%string; VFloat odds]].

(** A call that ends in an exception other than the fault of the division. *)
Definition rejected {A} (r : result A) : Prop :=
  exists e w, r = Raise e w /\ e <> ZeroDivisionError.

(** A run that fails, but not with the [ValueError] of [int] itself. *)
Definition clear_parse_error {A} (r : result A) : Prop :=
  exists e w, r = Raise e w /\ forall s, e <> ValueError s.

(** [m] prints nothing when it returns. *)
Definition prints_nothing {A} (m : M A) : Prop :=
  forall w a w', m w = Ok a w' -> stdout w' = stdout w.

(** What a verbose [comeOut] prints for its roll. *)
Definition come_out_lines (r : roll) : list line :=
  [[VStr "Phase I, the Come Out"]; threw r;
   [VStr (tab ++ "Target established:")%string; VInt (roll_sum r)]].

(** What a verbose [point] prints for its rolls. *)
Definition point_lines (rolls : list roll) : list line :=
  [VStr "Phase II, the Point"] :: map threw rolls.

Definition welcome_msg : line := [VStr "Welcome to the craps table."].
Definition again_msg : line := [VStr (nl ++ "Playing again...")%string].

(** The verbose games of [test] after the first: each one announced, their
    results in the order of the games. *)
Fixpoint more_rounds (n : nat) : M (list bool) :=
  match n with
  | O => ret []
  | S n' =>
      print again_msg ;;;
      replay <- playToReplay true ;;
      later <- more_rounds n' ;;
      ret (replay :: later)
  end.

(** The welcome, a first verbose game and [n] more. *)
Definition rounds (n : nat) : M (list bool) :=
  print welcome_msg ;;;
  replay <- playToReplay true ;;
  later <- more_rounds n ;;
  ret (replay :: later).

(** * Properties *)

(** ** Examples *)

Example ascii_int_42 : ascii_int " +4_2 " = Some 42.
Proof. reflexivity. Qed.

Example ascii_int_abc : ascii_int "abc" = None.
Proof. reflexivity. Qed.

Example ascii_int_empty : ascii_int "" = None.
Proof. reflexivity. Qed.

Example ascii_int_neg : ascii_int "-17" = Some (-17).
Proof. reflexivity. Qed.

Example ascii_int_double_underscore : ascii_int "1__0" = None.
Proof. reflexivity. Qed.

Example point_scenario_pass :
  playToWin false (mkWorld (dice [(1, 3); (2, 3); (2, 2)]) []) = Ok true (mkWorld [] []).
Proof. reflexivity. Qed.

Example point_scenario_seven_out :
  playToWin false (mkWorld (dice [(1, 3); (3, 4)]) []) = Ok false (mkWorld [] []).
Proof. reflexivity. Qed.

(** ** Running the dice *)

Lemma bind_Ok {A B} (m : M A) (k : A -> M B) w a w' :
  m w = Ok a w' -> bind m k w = k a w'.
Proof. unfold bind; intros ->; reflexivity. Qed.

Lemma bind_Starved {A B} (m : M A) (k : A -> M B) w :
  m w = Starved -> bind m k w = Starved.
Proof. unfold bind; intros ->; reflexivity. Qed.

Lemma bind_Raise {A B} (m : M A) (k : A -> M B) w e w' :
  m w = Raise e w' -> bind m k w = Raise e w'.
Proof. unfold bind; intros ->; reflexivity. Qed.

Lemma when_print (verbose : bool) (l : line) w :
  when verbose (print l) w
  = Ok tt (mkWorld (entropy w) (stdout w ++ narrate verbose [l])).
Proof.
  destruct w as [ent out]; destruct verbose; simpl; [reflexivity|].
  unfold ret; now rewrite app_nil_r.
Qed.

Lemma roll2_run verbose a b rest out :
  roll2 verbose (mkWorld (a :: b :: rest) out)
  = Ok (roll_sum (a, b)) (mkWorld rest (out ++ narrate verbose [threw (a, b)])).
Proof.
  unfold roll2, bind, randint; simpl.
  rewrite when_print; reflexivity.
Qed.

Lemma roll2_starved verbose w :
  (List.length (entropy w) < 2)%nat -> roll2 verbose w = Starved.
Proof.
  destruct w as [[|a [|b rest]] out]; simpl; intros H; try reflexivity; lia.
Qed.

Lemma face_range r : 1 <= face r <= 6.
Proof. unfold face; pose proof (Z.mod_pos_bound (r - 1) 6); lia. Qed.

Lemma face_id r : 1 <= r <= 6 -> face r = r.
Proof. intros H; unfold face; rewrite Z.mod_small; lia. Qed.

Lemma roll_sum_range r : 2 <= roll_sum r <= 12.
Proof.
  unfold roll_sum; pose proof (face_range (fst r)); pose proof (face_range (snd r)); lia.
Qed.

Lemma comeOut_run verbose a b rest out :
  comeOut verbose (mkWorld (a :: b :: rest) out)
  = Ok (roll_sum (a, b))
       (mkWorld rest
          (out ++ narrate verbose
                    [[VStr "Phase I, the Come Out"]; threw (a, b);
                     [VStr (tab ++ "Target established:")%string; VInt (roll_sum (a, b))]])).
Proof.
  unfold comeOut.
  rewrite (bind_Ok _ _ _ _ _ (when_print _ _ _)); simpl entropy; simpl stdout.
  rewrite (bind_Ok _ _ _ _ _ (roll2_run _ _ _ _ _)).
  rewrite (bind_Ok _ _ _ _ _ (when_print _ _ _)); simpl entropy; simpl stdout.
  unfold ret; f_equal; f_equal.
  destruct verbose; simpl; rewrite <- ?app_assoc; reflexivity.
Qed.

Lemma comeOut_starved verbose w :
  (List.length (entropy w) < 2)%nat -> comeOut verbose w = Starved.
Proof.
  intros H; unfold comeOut.
  rewrite (bind_Ok _ _ _ _ _ (when_print _ _ _)).
  apply bind_Starved, roll2_starved; simpl; exact H.
Qed.

Lemma dice_app xs ys : dice (xs ++ ys) = dice xs ++ dice ys.
Proof.
  induction xs as [|[a b] xs IH]; simpl; [reflexivity|]; now rewrite IH.
Qed.

Lemma dice_length xs : List.length (dice xs) = (2 * List.length xs)%nat.
Proof. induction xs as [|[a b] xs IH]; simpl; lia. Qed.

(** The loop of [point], entered with a sum that keeps it rolling, runs
    through the rolls [pre] that keep it rolling and leaves at [s]. *)
Lemma point_loop_run target verbose s rest :
  keeps_rolling target (roll_sum s) = false ->
  forall pre total fuel out,
    keeps_rolling target total = true ->
    Forall (fun r => keeps_rolling target (roll_sum r) = true) pre ->
    (List.length pre + 2 <= fuel)%nat ->
    while_fuel fuel (keeps_rolling target) (fun _ => roll2 verbose) total
      (mkWorld (dice (pre ++ [s]) ++ rest) out)
    = Ok (roll_sum s)
         (mkWorld rest (out ++ narrate verbose (map threw (pre ++ [s])))).
Proof.
  intros Hs; induction pre as [|[a b] pre IH]; intros total fuel out Ht Hpre Hfuel.
  - destruct fuel as [|[|fuel]]; simpl in Hfuel; try lia.
    destruct s as [a b]; simpl.
    rewrite Ht, (bind_Ok _ _ _ _ _ (roll2_run _ _ _ _ _)), Hs.
    reflexivity.
  - destruct fuel as [|fuel]; simpl in Hfuel; try lia.
    inversion Hpre as [|? ? Hr Hpre']; subst.
    cbn [while_fuel app dice].
    rewrite Ht, (bind_Ok _ _ _ _ _ (roll2_run _ _ _ _ _)).
    rewrite (IH _ fuel _ Hr Hpre') by lia.
    f_equal; f_equal.
    destruct verbose; simpl; rewrite <- ?app_assoc; reflexivity.
Qed.

(** [point] on a script whose first roll to end the phase is [s]. *)
Lemma point_first_stop target verbose pre s rest out :
  Forall (fun r => keeps_rolling target (roll_sum r) = true) pre ->
  keeps_rolling target (roll_sum s) = false ->
  point target verbose (mkWorld (dice (pre ++ [s]) ++ rest) out)
  = Ok (roll_sum s =? target)
       (mkWorld rest
          (out ++ narrate verbose
                    ([VStr "Phase II, the Point"] :: map threw (pre ++ [s])))).
Proof.
  intros Hpre Hs; unfold point.
  rewrite (bind_Ok _ _ _ _ _ (when_print _ _ _)); simpl entropy; simpl stdout.
  destruct pre as [|[a b] pre].
  - destruct s as [a b]; cbn [app dice].
    rewrite (bind_Ok _ _ _ _ _ (roll2_run _ _ _ _ _)).
    unfold bind at 1, while; cbn [entropy List.length while_fuel].
    fold (keeps_rolling target (roll_sum (a, b))); rewrite Hs.
    unfold ret; f_equal; f_equal.
    destruct verbose; simpl; rewrite <- ?app_assoc; reflexivity.
  - inversion Hpre as [|? ? Hr Hpre']; subst.
    cbn [app dice].
    rewrite (bind_Ok _ _ _ _ _ (roll2_run _ _ _ _ _)).
    unfold bind at 1, while; cbn [entropy].
    change (fun total => negb (total =? 7) && negb (total =? target))
      with (keeps_rolling target).
    rewrite (point_loop_run target verbose s rest Hs pre _ _ _ Hr Hpre').
    + unfold ret; f_equal; f_equal.
      destruct verbose; simpl; rewrite <- ?app_assoc; reflexivity.
    + rewrite length_app, dice_length, length_app; simpl; lia.
Qed.

Lemma first_stop_split target (rolls : list roll) :
  Exists (fun r => keeps_rolling target (roll_sum r) = false) rolls ->
  exists pre s post,
    rolls = pre ++ s :: post
    /\ Forall (fun r => keeps_rolling target (roll_sum r) = true) pre
    /\ keeps_rolling target (roll_sum s) = false.
Proof.
  induction rolls as [|r rolls IH]; intros H.
  - inversion H.
  - destruct (keeps_rolling target (roll_sum r)) eqn:Hr.
    + inversion H as [? ? H0|? ? H0]; subst; [congruence|].
      destruct (IH H0) as (pre & s & post & -> & Hpre & Hs).
      exists (r :: pre), s, post; repeat split; auto.
    + exists [], r, rolls; repeat split; auto.
Qed.

Lemma keeps_rolling_true target total :
  keeps_rolling target total = true <-> total <> 7 /\ total <> target.
Proof. unfold keeps_rolling; lia. Qed.

Lemma keeps_rolling_false target total :
  keeps_rolling target total = false <-> total = 7 \/ total = target.
Proof. unfold keeps_rolling; lia. Qed.

(** ** The loops never outrun their fuel *)

Lemma uses_weaken {A} k k' (m : M A) :
  (k' <= k)%nat -> uses_dice k m -> uses_dice k' m.
Proof. intros Hk H w a w' E; specialize (H w a w' E); lia. Qed.

Lemma uses_ret {A} (a : A) : uses_dice 0 (ret a).
Proof. intros w x w' E; inversion E; subst; lia. Qed.

Lemma uses_print l : uses_dice 0 (print l).
Proof. intros w x w' E; inversion E; subst; simpl; lia. Qed.

Lemma uses_when c m : uses_dice 0 m -> uses_dice 0 (when c m).
Proof. destruct c; simpl; [tauto|intros _; apply uses_ret]. Qed.

Lemma uses_bind {A B} k1 k2 (m : M A) (f : A -> M B) :
  uses_dice k1 m -> (forall a, uses_dice k2 (f a)) -> uses_dice (k1 + k2) (bind m f).
Proof.
  intros Hm Hf w b w' E; unfold bind in E.
  destruct (m w) as [a w1| |] eqn:Em; try discriminate.
  specialize (Hm _ _ _ Em); specialize (Hf _ _ _ _ E); lia.
Qed.

Lemma uses_randint lo hi : uses_dice 1 (randint lo hi).
Proof.
  intros [[|r rest] out] a w' E; unfold randint in E; simpl in E;
    inversion E; subst; simpl; lia.
Qed.

Lemma uses_roll2 verbose : uses_dice 2 (roll2 verbose).
Proof.
  unfold roll2.
  apply (uses_bind 1 1); [apply uses_randint|intros t1].
  apply (uses_bind 1 0); [apply uses_randint|intros t2].
  apply (uses_bind 0 0); [apply uses_when, uses_print|intros _; apply uses_ret].
Qed.

Lemma uses_comeOut verbose : uses_dice 2 (comeOut verbose).
Proof.
  unfold comeOut.
  apply (uses_bind 0 2); [apply uses_when, uses_print|intros _].
  apply (uses_bind 2 0); [apply uses_roll2|intros t].
  apply (uses_bind 0 0); [apply uses_when, uses_print|intros _; apply uses_ret].
Qed.

Lemma uses_while_fuel {St} fuel (cond : St -> bool) body :
  (forall s, uses_dice 0 (body s)) ->
  forall s, uses_dice 0 (while_fuel fuel cond body s).
Proof.
  intros Hbody; induction fuel as [|fuel IH]; intros s; simpl.
  - intros w a w' E; discriminate.
  - destruct (cond s); [|apply uses_ret].
    apply (uses_bind 0 0); auto.
Qed.

Lemma uses_while {St} (cond : St -> bool) body :
  (forall s, uses_dice 0 (body s)) ->
  forall s, uses_dice 0 (while cond body s).
Proof.
  intros Hbody s w a w' E; unfold while in E.
  exact (uses_while_fuel _ cond body Hbody s w a w' E).
Qed.

Lemma uses_point target verbose : uses_dice 2 (point target verbose).
Proof.
  unfold point.
  apply (uses_bind 0 2); [apply uses_when, uses_print|intros _].
  apply (uses_bind 2 0); [apply uses_roll2|intros t].
  apply (uses_bind 0 0); [|intros t'; apply uses_ret].
  apply uses_while; intros _.
  apply (uses_weaken 2); [lia|apply uses_roll2].
Qed.

Lemma uses_playToReplay verbose : uses_dice 2 (playToReplay verbose).
Proof.
  unfold playToReplay.
  apply (uses_bind 2 0); [apply uses_comeOut|intros t].
  apply (uses_bind 0 0); [|intros r; apply uses_ret].
  destruct (_ || _).
  - apply (uses_bind 0 0); [apply uses_when, uses_print|intros _; apply uses_ret].
  - destruct (_ || _).
    + apply (uses_bind 0 0); [apply uses_when, uses_print|intros _; apply uses_ret].
    + apply (uses_bind 0 0).
      * apply (uses_weaken 2); [lia|apply uses_point].
      * intros r; apply (uses_bind 0 0); [|intros _; apply uses_ret].
        apply uses_when; destruct r; apply uses_print.
Qed.

Lemma uses_playToWin verbose : uses_dice 2 (playToWin verbose).
Proof.
  unfold playToWin.
  apply (uses_bind 2 0); [apply uses_comeOut|intros t].
  apply (uses_bind 0 0); [|intros r; apply uses_ret].
  destruct (_ || _).
  - apply (uses_bind 0 0); [apply uses_when, uses_print|intros _; apply uses_ret].
  - destruct (_ || _).
    + apply (uses_bind 0 0); [apply uses_when, uses_print|intros _; apply uses_ret].
    + apply (uses_bind 0 0).
      * apply (uses_weaken 2); [lia|apply uses_point].
      * intros r; apply (uses_bind 0 0); [|intros _; apply uses_ret].
        apply uses_when; destruct r; apply uses_print.
Qed.

(** A loop whose body rolls the dice gives the same result for any fuel
    above the length of the script: [Starved] is never for want of fuel. *)
Lemma while_fuel_enough {St} (cond : St -> bool) body :
  (forall s, uses_dice 1 (body s)) ->
  forall fuel w s,
    (List.length (entropy w) < fuel)%nat ->
    while_fuel fuel cond body s w = while cond body s w.
Proof.
  intros Hbody.
  assert (H : forall f1 f2 w s,
             (List.length (entropy w) < f1)%nat ->
             (List.length (entropy w) < f2)%nat ->
             while_fuel f1 cond body s w = while_fuel f2 cond body s w).
  { induction f1 as [|f1 IH]; intros f2 w s H1 H2; [lia|].
    destruct f2 as [|f2]; [lia|]; simpl.
    destruct (cond s); [|reflexivity].
    unfold bind; destruct (body s w) as [s' w'| |] eqn:E; try reflexivity.
    specialize (Hbody _ _ _ _ E).
    apply IH; lia. }
  intros fuel w s Hlt; unfold while; apply H; lia.
Qed.

Lemma point_loop_fuel target verbose fuel w total :
  (List.length (entropy w) < fuel)%nat ->
  while_fuel fuel (keeps_rolling target) (fun _ => roll2 verbose) total w
  = while (keeps_rolling target) (fun _ => roll2 verbose) total w.
Proof.
  apply while_fuel_enough; intros _.
  apply (uses_weaken 2); [lia|apply uses_roll2].
Qed.

Lemma test_loop_fuel fuel w replay :
  (List.length (entropy w) < fuel)%nat ->
  while_fuel fuel (fun replay : bool => replay)
    (fun _ => print [VStr (nl ++ "Playing again...")%string] ;;; playToReplay true)
    replay w
  = while (fun replay : bool => replay)
      (fun _ => print [VStr (nl ++ "Playing again...")%string] ;;; playToReplay true)
      replay w.
Proof.
  apply while_fuel_enough; intros _.
  apply (uses_bind 0 1); [apply uses_print|intros _].
  apply (uses_weaken 2); [lia|apply uses_playToReplay].
Qed.

(** ** The printing and the dice *)

Lemma same_ret {A} (a : A) : same_run (ret a) (ret a).
Proof. intros w1 w2 E; simpl; now rewrite E. Qed.

Lemma same_bind {A B} (m1 m2 : M A) (k1 k2 : A -> M B) :
  same_run m1 m2 -> (forall a, same_run (k1 a) (k2 a)) ->
  same_run (bind m1 k1) (bind m2 k2).
Proof.
  intros Hm Hk w1 w2 E; unfold bind.
  specialize (Hm w1 w2 E).
  destruct (m1 w1) as [a1 u1|e1 u1|], (m2 w2) as [a2 u2|e2 u2|];
    simpl in Hm; try discriminate; try reflexivity.
  - inversion Hm; subst; now apply Hk.
  - inversion Hm; simpl; congruence.
Qed.

(** Printing, or not printing, shows nothing. *)
Lemma same_when c1 c2 l1 l2 : same_run (when c1 (print l1)) (when c2 (print l2)).
Proof. intros w1 w2 E; destruct c1, c2; simpl; now rewrite E. Qed.

Lemma same_randint lo hi : same_run (randint lo hi) (randint lo hi).
Proof.
  intros w1 w2 E; unfold randint; rewrite E.
  destruct (entropy w2); reflexivity.
Qed.

Lemma same_while_fuel {St} fuel (cond : St -> bool) body1 body2 :
  (forall s, same_run (body1 s) (body2 s)) ->
  forall s, same_run (while_fuel fuel cond body1 s) (while_fuel fuel cond body2 s).
Proof.
  intros Hbody; induction fuel as [|fuel IH]; intros s; simpl.
  - intros w1 w2 _; reflexivity.
  - destruct (cond s); [|apply same_ret].
    apply same_bind; auto.
Qed.

Lemma same_while {St} (cond : St -> bool) body1 body2 :
  (forall s, same_run (body1 s) (body2 s)) ->
  forall s, same_run (while cond body1 s) (while cond body2 s).
Proof.
  intros Hbody s w1 w2 E; unfold while; rewrite E.
  now apply same_while_fuel.
Qed.

Lemma same_roll2 v1 v2 : same_run (roll2 v1) (roll2 v2).
Proof.
  unfold roll2.
  apply same_bind; [apply same_randint|intros t1].
  apply same_bind; [apply same_randint|intros t2].
  apply same_bind; [apply same_when|intros _; apply same_ret].
Qed.

Lemma same_comeOut v1 v2 : same_run (comeOut v1) (comeOut v2).
Proof.
  unfold comeOut.
  apply same_bind; [apply same_when|intros _].
  apply same_bind; [apply same_roll2|intros t].
  apply same_bind; [apply same_when|intros _; apply same_ret].
Qed.

Lemma same_point target v1 v2 : same_run (point target v1) (point target v2).
Proof.
  unfold point.
  apply same_bind; [apply same_when|intros _].
  apply same_bind; [apply same_roll2|intros t].
  apply same_bind; [|intros t'; apply same_ret].
  apply same_while; intros _; apply same_roll2.
Qed.

(** The narration that follows the point phase. *)
Lemma same_verdict v1 v2 (b : bool) l1 l2 l3 l4 :
  same_run (when v1 (if b then print l1 else print l2))
           (when v2 (if b then print l3 else print l4)).
Proof. destruct b; apply same_when. Qed.

Lemma same_playToReplay v1 v2 : same_run (playToReplay v1) (playToReplay v2).
Proof.
  unfold playToReplay.
  apply same_bind; [apply same_comeOut|intros t].
  apply same_bind; [|intros r; apply same_ret].
  destruct (_ || _).
  - apply same_bind; [apply same_when|intros _; apply same_ret].
  - destruct (_ || _).
    + apply same_bind; [apply same_when|intros _; apply same_ret].
    + apply same_bind; [apply same_point|intros r].
      apply same_bind; [apply same_verdict|intros _; apply same_ret].
Qed.

Lemma same_playToWin v1 v2 : same_run (playToWin v1) (playToWin v2).
Proof.
  unfold playToWin.
  apply same_bind; [apply same_comeOut|intros t].
  apply same_bind; [|intros r; apply same_ret].
  destruct (_ || _).
  - apply same_bind; [apply same_when|intros _; apply same_ret].
  - destruct (_ || _).
    + apply same_bind; [apply same_when|intros _; apply same_ret].
    + apply same_bind; [apply same_point|intros r].
      apply same_bind; [apply same_verdict|intros _; apply same_ret].
Qed.

(** The narration after the point phase leaves the result as it is. *)
Lemma observe_after_point target verbose w (l1 l2 : line) :
  observe ((r <- point target verbose ;;
            when verbose (if r : bool then print l1 else print l2) ;;;
            ret r) w)
  = observe (point target verbose w).
Proof.
  unfold bind at 1.
  destruct (point target verbose w) as [r w'|e w'|]; try reflexivity.
  destruct verbose, r; reflexivity.
Qed.

(** ** The two games after the come-out roll *)

Lemma is_natural_iff target : is_natural target = true <-> target = 7 \/ target = 11.
Proof. unfold is_natural; lia. Qed.

Lemma is_craps_iff target :
  is_craps target = true <-> target = 2 \/ target = 3 \/ target = 12.
Proof. unfold is_craps; lia. Qed.

Lemma playToWin_natural verbose w target w1 :
  comeOut verbose w = Ok target w1 -> is_natural target = true ->
  playToWin verbose w
  = Ok true (mkWorld (entropy w1) (stdout w1 ++ narrate verbose [natural_msg])).
Proof.
  intros Hc Hn; unfold playToWin.
  rewrite (bind_Ok _ _ _ _ _ Hc).
  unfold is_natural in Hn; rewrite Hn.
  unfold bind; rewrite when_print; reflexivity.
Qed.

Lemma playToWin_craps verbose w target w1 :
  comeOut verbose w = Ok target w1 -> is_craps target = true ->
  playToWin verbose w
  = Ok false (mkWorld (entropy w1) (stdout w1 ++ narrate verbose [craps_msg])).
Proof.
  intros Hc Hn; unfold playToWin.
  rewrite (bind_Ok _ _ _ _ _ Hc).
  assert (Hnat : (target =? 7) || (target =? 11) = false)
    by (unfold is_craps in Hn; lia).
  rewrite Hnat; unfold is_craps in Hn; rewrite Hn.
  unfold bind; rewrite when_print; reflexivity.
Qed.

Lemma playToReplay_natural verbose w target w1 :
  comeOut verbose w = Ok target w1 -> is_natural target = true ->
  playToReplay verbose w
  = Ok false (mkWorld (entropy w1) (stdout w1 ++ narrate verbose [natural_msg])).
Proof.
  intros Hc Hn; unfold playToReplay.
  rewrite (bind_Ok _ _ _ _ _ Hc).
  unfold is_natural in Hn; rewrite Hn.
  unfold bind; rewrite when_print; reflexivity.
Qed.

Lemma playToReplay_craps verbose w target w1 :
  comeOut verbose w = Ok target w1 -> is_craps target = true ->
  playToReplay verbose w
  = Ok true (mkWorld (entropy w1) (stdout w1 ++ narrate verbose [craps_msg])).
Proof.
  intros Hc Hn; unfold playToReplay.
  rewrite (bind_Ok _ _ _ _ _ Hc).
  assert (Hnat : (target =? 7) || (target =? 11) = false)
    by (unfold is_craps in Hn; lia).
  rewrite Hnat; unfold is_craps in Hn; rewrite Hn.
  unfold bind; rewrite when_print; reflexivity.
Qed.

Lemma playToWin_point verbose w target w1 :
  comeOut verbose w = Ok target w1 ->
  is_natural target = false -> is_craps target = false ->
  observe (playToWin verbose w) = observe (point target verbose w1).
Proof.
  intros Hc Hn Hcr; unfold playToWin.
  rewrite (bind_Ok _ _ _ _ _ Hc).
  unfold is_natural in Hn; unfold is_craps in Hcr; rewrite Hn, Hcr.
  rewrite <- (observe_after_point target verbose w1 pass_msg seven_out_msg).
  unfold bind at 1.
  match goal with |- observe (match ?r with _ => _ end) = observe ?r' =>
    change r' with r; destruct r; reflexivity end.
Qed.

Lemma playToReplay_point verbose w target w1 :
  comeOut verbose w = Ok target w1 ->
  is_natural target = false -> is_craps target = false ->
  observe (playToReplay verbose w) = observe (point target verbose w1).
Proof.
  intros Hc Hn Hcr; unfold playToReplay.
  rewrite (bind_Ok _ _ _ _ _ Hc).
  unfold is_natural in Hn; unfold is_craps in Hcr; rewrite Hn, Hcr.
  rewrite <- (observe_after_point target verbose w1 pass_msg seven_out_msg).
  unfold bind at 1.
  match goal with |- observe (match ?r with _ => _ end) = observe ?r' =>
    change r' with r; destruct r; reflexivity end.
Qed.

(** ** The games of [computeOdds] *)

Lemma count_wins_cons (won : bool) results :
  count_wins (won :: results) = (if won then 1 else 0) + count_wins results.
Proof.
  unfold count_wins; destruct won; cbn [count_occ bool_dec bool_rec bool_rect];
    lia.
Qed.

Lemma count_wins_bounds results :
  0 <= count_wins results <= Z.of_nat (List.length results).
Proof.
  unfold count_wins; pose proof (count_occ_bound bool_dec true results); lia.
Qed.

Lemma play_games_length n :
  forall w results w', play_games n w = Ok results w' -> List.length results = n.
Proof.
  induction n as [|n IH]; intros w results w' E; simpl in E.
  - inversion E; reflexivity.
  - unfold bind in E.
    destruct (playToWin false w) as [won w1| |]; try discriminate.
    destruct (play_games n w1) as [later w2| |] eqn:E2; try discriminate.
    inversion E; subst; simpl; f_equal; eauto.
Qed.

(** The loop of [computeOdds] adds to [wins] the wins of its games. *)
Lemma for_games n :
  forall i wins w,
    for_from n i
      (fun _ wins =>
         won <- playToWin false ;;
         if Bool.eqb won true then ret (wins + 1) else ret wins)
      wins w
    = match play_games n w with
      | Ok results w' => Ok (wins + count_wins results) w'
      | Raise e w' => Raise e w'
      | Starved => Starved
      end.
Proof.
  induction n as [|n IH]; intros i wins w; simpl.
  - unfold ret; now rewrite Z.add_0_r.
  - unfold bind at 1 2 4.
    destruct (playToWin false w) as [won w1| |]; try reflexivity.
    destruct won; cbn [Bool.eqb]; unfold ret at 1;
      (etransitivity; [apply IH|]); unfold bind;
      destruct (play_games n w1) as [later w2| |]; try reflexivity;
      unfold ret; rewrite count_wins_cons; f_equal; lia.
Qed.

Lemma computeOdds_run numGames w :
  computeOdds numGames w
  = match play_games (Z.to_nat numGames) w with
    | Ok results w' =>
        let wins := count_wins results in
        if numGames =? 0 then Raise ZeroDivisionError w'
        else
          let odds := (inject_Z wins / inject_Z numGames)%Q in
          Ok odds (mkWorld (entropy w') (stdout w' ++ report numGames wins odds))
    | Raise e w' => Raise e w'
    | Starved => Starved
    end.
Proof.
  unfold computeOdds, for_range.
  unfold bind at 1; rewrite for_games.
  destruct (play_games (Z.to_nat numGames) w) as [results w'| |]; try reflexivity.
  cbn zeta; rewrite Z.add_0_l.
  unfold bind at 1, truediv.
  destruct (numGames =? 0); [reflexivity|].
  destruct w' as [ent out]; unfold ret, bind, print; simpl.
  rewrite <- !app_assoc; reflexivity.
Qed.

Lemma quotient_of_counts (wins n : Z) :
  0 < n -> (inject_Z wins / inject_Z n == wins # Z.to_pos n)%Q.
Proof.
  intros Hn; unfold Qdiv, Qinv, inject_Z, Qmult, Qeq; simpl.
  destruct n as [|p|p]; try lia; simpl; lia.
Qed.

Lemma main_odds_default py_int prog w :
  main py_int [prog; "odds"] w = (computeOdds 1000 ;;; ret tt) w.
Proof. reflexivity. Qed.

Lemma main_odds_given py_int prog arg2 more w :
  main py_int (prog :: "odds" :: arg2 :: more) w
  = (numGames <- int py_int arg2 ;; computeOdds numGames ;;; ret tt) w.
Proof. reflexivity. Qed.

(** ** Leaving the loop of [point] *)

Lemma while_fuel_exit {St} (cond : St -> bool) body fuel :
  forall s w s' w',
    while_fuel fuel cond body s w = Ok s' w' -> cond s' = false.
Proof.
  induction fuel as [|fuel IH]; intros s w s' w' E; simpl in E; [discriminate|].
  destruct (cond s) eqn:Hc.
  - unfold bind in E; destruct (body s w) as [s1 w1| |]; try discriminate; eauto.
  - inversion E; subst; exact Hc.
Qed.

(** Whatever [point] returns, its last sum left the loop. *)
Lemma point_returns target verbose w win w' :
  point target verbose w = Ok win w' ->
  exists total, keeps_rolling target total = false /\ win = (total =? target).
Proof.
  unfold point, bind; intros E.
  destruct (when verbose _ w) as [[] w0| |]; try discriminate.
  destruct (roll2 verbose w0) as [total0 w1| |]; try discriminate.
  destruct (while _ _ total0 w1) as [total w2| |] eqn:Ew; try discriminate.
  inversion E; subst; exists total; split; [|reflexivity].
  unfold while in Ew; apply while_fuel_exit in Ew; exact Ew.
Qed.

Lemma split_script (pre : list roll) s post tail :
  dice (pre ++ s :: post) ++ tail = dice (pre ++ [s]) ++ (dice post ++ tail).
Proof.
  change (s :: post) with ([s] ++ post).
  now rewrite app_assoc, (dice_app (pre ++ [s])), <- app_assoc.
Qed.

(** ** No game raises *)

Lemma quiet_ret {A} (a : A) : never_raises (ret a).
Proof. intros w e w' E; discriminate. Qed.

Lemma quiet_bind {A B} (m : M A) (k : A -> M B) :
  never_raises m -> (forall a, never_raises (k a)) -> never_raises (bind m k).
Proof.
  intros Hm Hk w e w' E; unfold bind in E.
  destruct (m w) as [a w1|e1 w1|] eqn:Em; try discriminate.
  - exact (Hk a w1 e w' E).
  - exact (Hm w e1 w1 Em).
Qed.

Lemma quiet_when c l : never_raises (when c (print l)).
Proof. intros w e w' E; destruct c; discriminate. Qed.

Lemma quiet_randint lo hi : never_raises (randint lo hi).
Proof.
  intros w e w' E; unfold randint in E; destruct (entropy w); discriminate.
Qed.

Lemma quiet_roll2 verbose : never_raises (roll2 verbose).
Proof.
  unfold roll2.
  apply quiet_bind; [apply quiet_randint|intros t1].
  apply quiet_bind; [apply quiet_randint|intros t2].
  apply quiet_bind; [apply quiet_when|intros _; apply quiet_ret].
Qed.

Lemma quiet_while_fuel {St} fuel (cond : St -> bool) body :
  (forall s, never_raises (body s)) ->
  forall s, never_raises (while_fuel fuel cond body s).
Proof.
  intros Hbody; induction fuel as [|fuel IH]; intros s; simpl.
  - intros w e w' E; discriminate.
  - destruct (cond s); [|apply quiet_ret].
    apply quiet_bind; auto.
Qed.

Lemma quiet_point target verbose : never_raises (point target verbose).
Proof.
  unfold point.
  apply quiet_bind; [apply quiet_when|intros _].
  apply quiet_bind; [apply quiet_roll2|intros t].
  apply quiet_bind; [|intros t'; apply quiet_ret].
  intros w; unfold while.
  apply quiet_while_fuel; intros _; apply quiet_roll2.
Qed.

Lemma point_never_raises target verbose w e w' :
  point target verbose w = Raise e w' -> False.
Proof. apply quiet_point. Qed.

(** * The claims *)

(** C1: after the same come-out roll and on the same dice, [playToReplay]
    and [playToWin] agree as follows.  On a come-out sum of 2, 3 or 12
    [playToReplay] returns true and [playToWin] returns false; on 7 or 11
    [playToReplay] returns false and [playToWin] returns true; on any other
    sum both return what [point] returns for that target on the rest of
    the dice, taking the same dice, and neither finishes if [point] does
    not. *)
Theorem replay_and_win_agree :
  forall verbose w target w1,
    comeOut verbose w = Ok target w1 ->
    (target = 2 \/ target = 3 \/ target = 12 ->
       playToReplay verbose w
       = Ok true (mkWorld (entropy w1) (stdout w1 ++ narrate verbose [craps_msg]))
       /\ playToWin verbose w
          = Ok false (mkWorld (entropy w1) (stdout w1 ++ narrate verbose [craps_msg])))
    /\ (target = 7 \/ target = 11 ->
          playToReplay verbose w
          = Ok false (mkWorld (entropy w1) (stdout w1 ++ narrate verbose [natural_msg]))
          /\ playToWin verbose w
             = Ok true (mkWorld (entropy w1) (stdout w1 ++ narrate verbose [natural_msg])))
    /\ (~ (target = 2 \/ target = 3 \/ target = 12) -> ~ (target = 7 \/ target = 11) ->
          observe (playToReplay verbose w) = observe (point target verbose w1)
          /\ observe (playToWin verbose w) = observe (point target verbose w1)).
Proof.
  intros verbose w target w1 Hc; repeat split.
  - apply (playToReplay_craps _ _ _ _ Hc), is_craps_iff; assumption.
  - apply (playToWin_craps _ _ _ _ Hc), is_craps_iff; assumption.
  - apply (playToReplay_natural _ _ _ _ Hc), is_natural_iff; assumption.
  - apply (playToWin_natural _ _ _ _ Hc), is_natural_iff; assumption.
  - apply (playToReplay_point _ _ _ _ Hc).
    + destruct (is_natural target) eqn:E; [|reflexivity].
      apply is_natural_iff in E; tauto.
    + destruct (is_craps target) eqn:E; [|reflexivity].
      apply is_craps_iff in E; tauto.
  - apply (playToWin_point _ _ _ _ Hc).
    + destruct (is_natural target) eqn:E; [|reflexivity].
      apply is_natural_iff in E; tauto.
    + destruct (is_craps target) eqn:E; [|reflexivity].
      apply is_craps_iff in E; tauto.
Qed.

Lemma replay_and_win_agree_witness :
  (playToReplay false (mkWorld [1; 2] []) = Ok true (mkWorld [] [])
   /\ playToWin false (mkWorld [1; 2] []) = Ok false (mkWorld [] []))
  /\ (playToReplay true (mkWorld [5; 6; 1; 1] [])
      = Ok false
          (mkWorld [1; 1]
             [[VStr "Phase I, the Come Out"]; threw (5, 6);
              [VStr (tab ++ "Target established:")%string; VInt 11]; natural_msg])
      /\ playToWin true (mkWorld [5; 6; 1; 1] [])
         = Ok true
             (mkWorld [1; 1]
                [[VStr "Phase I, the Come Out"]; threw (5, 6);
                 [VStr (tab ++ "Target established:")%string; VInt 11]; natural_msg]))
  /\ (observe (playToReplay false (mkWorld [2; 2; 4; 5; 3; 4] []))
      = observe (point 4 false (mkWorld [4; 5; 3; 4] []))
      /\ observe (playToWin false (mkWorld [2; 2; 4; 5; 3; 4] []))
         = observe (point 4 false (mkWorld [4; 5; 3; 4] []))).
Proof.
  split; [|split].
  - apply (replay_and_win_agree false (mkWorld [1; 2] []) 3 (mkWorld [] []) eq_refl).
    right; left; reflexivity.
  - apply (replay_and_win_agree true (mkWorld [5; 6; 1; 1] []) 11
             (mkWorld [1; 1]
                [[VStr "Phase I, the Come Out"]; threw (5, 6);
                 [VStr (tab ++ "Target established:")%string; VInt 11]]) eq_refl).
    right; reflexivity.
  - apply (replay_and_win_agree false (mkWorld [2; 2; 4; 5; 3; 4] []) 4
             (mkWorld [4; 5; 3; 4] []) eq_refl); lia.
Defined.

(** C2: for a target among 4, 5, 6, 8, 9, 10 and a sequence of rolls in which
    some sum is 7 or the target, [point] rolls past every sum that is
    neither, stops at the first sum [s] that is 7 or the target, leaving the
    later dice untouched, and returns true when [s] is the target and false
    when [s] is 7. *)
Theorem point_stops_at_first_seven_or_target :
  forall target verbose (rolls : list roll) (tail : list Z) out,
    In target [4; 5; 6; 8; 9; 10] ->
    Exists (fun r => roll_sum r = 7 \/ roll_sum r = target) rolls ->
    exists pre s post win,
      rolls = pre ++ s :: post
      /\ Forall (fun r => roll_sum r <> 7 /\ roll_sum r <> target) pre
      /\ (roll_sum s = 7 \/ roll_sum s = target)
      /\ point target verbose (mkWorld (dice rolls ++ tail) out)
         = Ok win
             (mkWorld (dice post ++ tail)
                (out ++ narrate verbose
                          ([VStr "Phase II, the Point"] :: map threw (pre ++ [s]))))
      /\ (win = true <-> roll_sum s = target)
      /\ (win = false <-> roll_sum s = 7).
Proof.
  intros target verbose rolls tail out Ht Hex.
  destruct (first_stop_split target rolls) as (pre & s & post & -> & Hpre & Hs).
  { eapply Exists_impl; [|exact Hex]; intros r Hr; now apply keeps_rolling_false. }
  exists pre, s, post, (roll_sum s =? target).
  split; [reflexivity|].
  split.
  { eapply Forall_impl; [|exact Hpre].
    intros r Hr; now apply keeps_rolling_true. }
  apply keeps_rolling_false in Hs as Hs'.
  split; [exact Hs'|].
  split; [rewrite split_script; now apply point_first_stop|].
  simpl in Ht; lia.
Qed.

Lemma point_stops_at_first_seven_or_target_witness :
  exists pre s post win,
    [(2, 3); (6, 6); (1, 3); (3, 4)] = pre ++ s :: post
    /\ Forall (fun r => roll_sum r <> 7 /\ roll_sum r <> 4) pre
    /\ (roll_sum s = 7 \/ roll_sum s = 4)
    /\ point 4 true (mkWorld (dice [(2, 3); (6, 6); (1, 3); (3, 4)] ++ [5]) [])
       = Ok win
           (mkWorld (dice post ++ [5])
              ([] ++ narrate true
                       ([VStr "Phase II, the Point"] :: map threw (pre ++ [s]))))
    /\ (win = true <-> roll_sum s = 4)
    /\ (win = false <-> roll_sum s = 7).
Proof.
  apply (point_stops_at_first_seven_or_target 4 true
           [(2, 3); (6, 6); (1, 3); (3, 4)] [5] []).
  - simpl; tauto.
  - apply Exists_cons_tl, Exists_cons_tl, Exists_cons_hd; right; reflexivity.
Defined.

(** C3: when the come-out sum is 7 or 11, [playToWin] returns true at once:
    it takes no die after the come-out roll and prints nothing but the
    line of the natural (when verbose), so the point phase is not entered. *)
Theorem natural_wins :
  forall verbose w target w1,
    comeOut verbose w = Ok target w1 ->
    target = 7 \/ target = 11 ->
    playToWin verbose w
    = Ok true (mkWorld (entropy w1) (stdout w1 ++ narrate verbose [natural_msg])).
Proof.
  intros verbose w target w1 Hc Ht.
  apply (playToWin_natural _ _ _ _ Hc), is_natural_iff, Ht.
Qed.

Lemma natural_wins_witness :
  playToWin true (mkWorld [3; 4; 2; 2] [])
  = Ok true
      (mkWorld [2; 2]
         [[VStr "Phase I, the Come Out"]; threw (3, 4);
          [VStr (tab ++ "Target established:")%string; VInt 7]; natural_msg]).
Proof.
  apply (natural_wins true (mkWorld [3; 4; 2; 2] []) 7
           (mkWorld [2; 2]
              [[VStr "Phase I, the Come Out"]; threw (3, 4);
               [VStr (tab ++ "Target established:")%string; VInt 7]]) eq_refl).
  left; reflexivity.
Defined.

(** C4: when the come-out sum is 2, 3 or 12, [playToWin] returns false at
    once: it takes no die after the come-out roll and prints nothing but
    the line of the craps (when verbose), so the point phase is not
    entered. *)
Theorem craps_loses :
  forall verbose w target w1,
    comeOut verbose w = Ok target w1 ->
    target = 2 \/ target = 3 \/ target = 12 ->
    playToWin verbose w
    = Ok false (mkWorld (entropy w1) (stdout w1 ++ narrate verbose [craps_msg])).
Proof.
  intros verbose w target w1 Hc Ht.
  apply (playToWin_craps _ _ _ _ Hc), is_craps_iff, Ht.
Qed.

Lemma craps_loses_witness :
  playToWin true (mkWorld [6; 6; 2; 2] [])
  = Ok false
      (mkWorld [2; 2]
         [[VStr "Phase I, the Come Out"]; threw (6, 6);
          [VStr (tab ++ "Target established:")%string; VInt 12]; craps_msg]).
Proof.
  apply (craps_loses true (mkWorld [6; 6; 2; 2] []) 12
           (mkWorld [2; 2]
              [[VStr "Phase I, the Come Out"]; threw (6, 6);
               [VStr (tab ++ "Target established:")%string; VInt 12]]) eq_refl).
  right; right; reflexivity.
Defined.

(** C5: for a positive number of games [N], [computeOdds] plays [N] silent
    games of [playToWin]; its count of wins is the number of those games
    that returned true and lies between 0 and [N]; it returns the quotient
    wins / N (and prints [N], the wins and the quotient). *)
Theorem computeOdds_counts_wins :
  forall (N : Z) w results w',
    0 < N ->
    play_games (Z.to_nat N) w = Ok results w' ->
    let wins := count_wins results in
    let odds := (inject_Z wins / inject_Z N)%Q in
    List.length results = Z.to_nat N
    /\ 0 <= wins <= N
    /\ computeOdds N w
       = Ok odds (mkWorld (entropy w') (stdout w' ++ report N wins odds))
    /\ (odds == wins # Z.to_pos N)%Q.
Proof.
  intros N w results w' HN Hplay wins odds.
  pose proof (play_games_length _ _ _ _ Hplay) as Hlen.
  pose proof (count_wins_bounds results) as Hb.
  split; [exact Hlen|].
  split; [subst wins; rewrite Hlen in Hb; lia|].
  split.
  - rewrite computeOdds_run, Hplay.
    destruct (N =? 0) eqn:E; [lia|reflexivity].
  - apply quotient_of_counts, HN.
Qed.

Lemma computeOdds_counts_wins_witness :
  let w := mkWorld (dice [(3, 4); (1, 1); (2, 2); (6, 1); (5, 6)]) [] in
  List.length [true; false; false; true] = 4%nat
  /\ 0 <= 2 <= 4
  /\ computeOdds 4 w
     = Ok (inject_Z 2 / inject_Z 4)%Q
         (mkWorld [] (report 4 2 (inject_Z 2 / inject_Z 4)%Q))
  /\ (inject_Z 2 / inject_Z 4 == 2 # 4)%Q.
Proof.
  apply (computeOdds_counts_wins 4
           (mkWorld (dice [(3, 4); (1, 1); (2, 2); (6, 1); (5, 6)]) [])
           [true; false; false; true] (mkWorld [] [])).
  - lia.
  - reflexivity.
Defined.

(** C6, as the program has it: called with [N = 0], [computeOdds] plays no
    game, prints nothing and lets the [ZeroDivisionError] of [wins / N]
    through; called with a negative [N] it plays no game either and
    completes, reporting [N], 0 wins and the quotient 0 / N. *)
Theorem computeOdds_degenerate :
  forall (N : Z) w,
    N <= 0 ->
    computeOdds N w
    = if N =? 0 then Raise ZeroDivisionError w
      else Ok (inject_Z 0 / inject_Z N)%Q
             (mkWorld (entropy w)
                (stdout w ++ report N 0 (inject_Z 0 / inject_Z N)%Q)).
Proof.
  intros N w HN; rewrite computeOdds_run.
  replace (Z.to_nat N) with 0%nat by lia.
  reflexivity.
Qed.

Lemma computeOdds_degenerate_witness :
  computeOdds 0 (mkWorld [3; 4] []) = Raise ZeroDivisionError (mkWorld [3; 4] [])
  /\ computeOdds (-3) (mkWorld [3; 4] [])
     = Ok (inject_Z 0 / inject_Z (-3))%Q
         (mkWorld [3; 4] (report (-3) 0 (inject_Z 0 / inject_Z (-3))%Q)).
Proof.
  split.
  - apply (computeOdds_degenerate 0 (mkWorld [3; 4] [])); lia.
  - apply (computeOdds_degenerate (-3) (mkWorld [3; 4] [])); lia.
Defined.

(** C6 as stated fails: with [N = 0] the division's own fault comes out,
    and with [N = -3] the call completes. *)
Lemma computeOdds_zero_not_rejected :
  computeOdds 0 (mkWorld [] []) = Raise ZeroDivisionError (mkWorld [] [])
  /\ ~ rejected (computeOdds 0 (mkWorld [] []))
  /\ ~ rejected (computeOdds (-3) (mkWorld [] [])).
Proof.
  split; [reflexivity|split].
  - intros (e & w & E & Hne); apply Hne.
    change (computeOdds 0 (mkWorld [] []))
      with (@Raise Q ZeroDivisionError (mkWorld [] [])) in E.
    now inversion E.
  - intros (e & w & E & _).
    change (computeOdds (-3) (mkWorld [] []))
      with (Ok (inject_Z 0 / inject_Z (-3))%Q
              (mkWorld [] (report (-3) 0 (inject_Z 0 / inject_Z (-3))%Q))) in E.
    discriminate E.
Qed.

(** C7, as the program has it: when the game count given to [odds] is a
    string [int] does not accept, [main] lets the [ValueError] of [int]
    through unhandled; no game is played and the program prints nothing. *)
Theorem main_odds_non_numeric :
  forall (py_int : string -> option Z) prog s more w,
    py_int s = None ->
    main py_int (prog :: "odds" :: s :: more) w = Raise (ValueError s) w.
Proof.
  intros py_int prog s more w Hs.
  rewrite main_odds_given; unfold bind, int; rewrite Hs; reflexivity.
Qed.

Lemma main_odds_non_numeric_witness :
  main ascii_int ["craps.py"; "odds"; "many"] (mkWorld [3; 4] [])
  = Raise (ValueError "many") (mkWorld [3; 4] []).
Proof.
  apply (main_odds_non_numeric ascii_int "craps.py" "many" [] (mkWorld [3; 4] [])).
  reflexivity.
Defined.

(** C7 as stated fails: on [odds abc] the exception of [int] is what comes
    out of [main]. *)
Lemma main_odds_abc_raw_exception :
  ascii_int "abc" = None
  /\ main ascii_int ["craps.py"; "odds"; "abc"] (mkWorld [] [])
     = Raise (ValueError "abc") (mkWorld [] [])
  /\ ~ clear_parse_error (main ascii_int ["craps.py"; "odds"; "abc"] (mkWorld [] [])).
Proof.
  split; [reflexivity|split; [reflexivity|]].
  intros (e & w & E & Hne).
  change (main ascii_int ["craps.py"; "odds"; "abc"] (mkWorld [] []))
    with (@Raise unit (ValueError "abc") (mkWorld [] [])) in E.
  inversion E; subst; now apply (Hne "abc").
Qed.

(** C8: called with the single argument [odds], [main] runs [computeOdds]
    with 1000 games exactly: 1000 games are played and the report names
    1000. *)
Theorem odds_default_is_1000 :
  forall (py_int : string -> option Z) prog w,
    main py_int [prog; "odds"] w = (computeOdds 1000 ;;; ret tt) w
    /\ forall results w',
         play_games 1000 w = Ok results w' ->
         List.length results = 1000%nat
         /\ main py_int [prog; "odds"] w
            = Ok tt
                (mkWorld (entropy w')
                   (stdout w'
                    ++ report 1000 (count_wins results)
                         (inject_Z (count_wins results) / inject_Z 1000)%Q)).
Proof.
  intros py_int prog w; split; [apply main_odds_default|].
  intros results w' Hplay.
  split; [exact (play_games_length _ _ _ _ Hplay)|].
  rewrite main_odds_default; unfold bind.
  rewrite computeOdds_run.
  change (Z.to_nat 1000) with 1000%nat; rewrite Hplay.
  reflexivity.
Qed.

Lemma odds_default_is_1000_witness :
  main ascii_int ["craps.py"; "odds"] (mkWorld (dice (repeat (3, 4) 1000)) [])
  = Ok tt (mkWorld [] (report 1000 1000 (inject_Z 1000 / inject_Z 1000)%Q)).
Proof.
  apply (proj2 (odds_default_is_1000 ascii_int "craps.py"
                  (mkWorld (dice (repeat (3, 4) 1000)) []))
           (repeat true 1000) (mkWorld [] [])).
  vm_compute; reflexivity.
Defined.

(** C9: on the same dice, what [playToWin], [playToReplay], [point] and
    [roll2] return, the dice they take, and whether they return at all, are
    the same whatever the two values of [verbose] and whatever was printed
    before: [verbose] bears on the printing only. *)
Theorem verbose_noninterference :
  forall v1 v2 w1 w2 target,
    entropy w1 = entropy w2 ->
    observe (playToWin v1 w1) = observe (playToWin v2 w2)
    /\ observe (playToReplay v1 w1) = observe (playToReplay v2 w2)
    /\ observe (point target v1 w1) = observe (point target v2 w2)
    /\ observe (roll2 v1 w1) = observe (roll2 v2 w2).
Proof.
  intros v1 v2 w1 w2 target E; repeat split.
  - now apply same_playToWin.
  - now apply same_playToReplay.
  - now apply same_point.
  - now apply same_roll2.
Qed.

Lemma verbose_noninterference_witness :
  let w1 := mkWorld [2; 2; 5; 6; 1; 3; 6; 6] [] in
  let w2 := mkWorld [2; 2; 5; 6; 1; 3; 6; 6] [[VStr "Welcome to the craps table."]] in
  observe (playToWin true w1) = observe (playToWin false w2)
  /\ observe (playToReplay true w1) = observe (playToReplay false w2)
  /\ observe (point 4 true w1) = observe (point 4 false w2)
  /\ observe (roll2 true w1) = observe (roll2 false w2).
Proof.
  apply (verbose_noninterference true false
           (mkWorld [2; 2; 5; 6; 1; 3; 6; 6] [])
           (mkWorld [2; 2; 5; 6; 1; 3; 6; 6] [[VStr "Welcome to the craps table."]])
           4).
  reflexivity.
Defined.

(** C10: with the target 7, [point] never returns false and raises nothing:
    it returns true or is still rolling; and on a sequence of rolls in
    which some sum is 7 it stops at the first such roll and returns true. *)
Theorem point_target_seven :
  forall verbose (rolls : list roll) (tail : list Z) out,
    match point 7 verbose (mkWorld (dice rolls ++ tail) out) with
    | Ok win _ => win = true
    | Raise _ _ => False
    | Starved => True
    end
    /\ (Exists (fun r => roll_sum r = 7) rolls ->
        exists pre s post,
          rolls = pre ++ s :: post
          /\ Forall (fun r => roll_sum r <> 7) pre
          /\ roll_sum s = 7
          /\ point 7 verbose (mkWorld (dice rolls ++ tail) out)
             = Ok true
                 (mkWorld (dice post ++ tail)
                    (out ++ narrate verbose
                              ([VStr "Phase II, the Point"] :: map threw (pre ++ [s]))))).
Proof.
  intros verbose rolls tail out; split.
  - destruct (point 7 verbose _) as [win w'|e w'|] eqn:E; [| |exact I].
    + destruct (point_returns _ _ _ _ _ E) as (total & Hk & ->).
      apply keeps_rolling_false in Hk; lia.
    + exact (point_never_raises _ _ _ _ _ E).
  - intros Hex.
    destruct (first_stop_split 7 rolls) as (pre & s & post & -> & Hpre & Hs).
    { eapply Exists_impl; [|exact Hex]; intros r Hr.
      apply keeps_rolling_false; now left. }
    apply keeps_rolling_false in Hs as Hs'.
    assert (H7 : roll_sum s = 7) by lia.
    exists pre, s, post.
    split; [reflexivity|].
    split.
    { eapply Forall_impl; [|exact Hpre].
      intros r Hr; apply keeps_rolling_true in Hr; tauto. }
    split; [exact H7|].
    rewrite split_script, (point_first_stop 7 verbose pre s _ out Hpre Hs).
    now rewrite H7.
Qed.

Lemma point_target_seven_witness :
  exists pre s post,
    [(1, 1); (2, 5); (6, 1)] = pre ++ s :: post
    /\ Forall (fun r => roll_sum r <> 7) pre
    /\ roll_sum s = 7
    /\ point 7 false (mkWorld (dice [(1, 1); (2, 5); (6, 1)] ++ []) [])
       = Ok true
           (mkWorld (dice post ++ [])
              ([] ++ narrate false
                       ([VStr "Phase II, the Point"] :: map threw (pre ++ [s])))).
Proof.
  apply (point_target_seven false [(1, 1); (2, 5); (6, 1)] [] []).
  apply Exists_cons_tl, Exists_cons_hd; reflexivity.
Defined.

(** * Further properties of the program *)

(** ** Helpers *)

Lemma quiet_while {St} (cond : St -> bool) body :
  (forall s, never_raises (body s)) ->
  forall s, never_raises (while cond body s).
Proof.
  intros Hbody s w; unfold while; now apply quiet_while_fuel.
Qed.

Lemma quiet_print l : never_raises (print l).
Proof. intros w e w' E; discriminate. Qed.

Lemma quiet_comeOut verbose : never_raises (comeOut verbose).
Proof.
  unfold comeOut.
  apply quiet_bind; [apply quiet_when|intros _].
  apply quiet_bind; [apply quiet_roll2|intros t].
  apply quiet_bind; [apply quiet_when|intros _; apply quiet_ret].
Qed.

Lemma quiet_verdict verbose (b : bool) l1 l2 :
  never_raises (when verbose (if b then print l1 else print l2)).
Proof. destruct b; apply quiet_when. Qed.

Lemma quiet_playToWin verbose : never_raises (playToWin verbose).
Proof.
  unfold playToWin.
  apply quiet_bind; [apply quiet_comeOut|intros t].
  apply quiet_bind; [|intros r; apply quiet_ret].
  destruct (_ || _).
  - apply quiet_bind; [apply quiet_when|intros _; apply quiet_ret].
  - destruct (_ || _).
    + apply quiet_bind; [apply quiet_when|intros _; apply quiet_ret].
    + apply quiet_bind; [apply quiet_point|intros r].
      apply quiet_bind; [apply quiet_verdict|intros _; apply quiet_ret].
Qed.

Lemma quiet_playToReplay verbose : never_raises (playToReplay verbose).
Proof.
  unfold playToReplay.
  apply quiet_bind; [apply quiet_comeOut|intros t].
  apply quiet_bind; [|intros r; apply quiet_ret].
  destruct (_ || _).
  - apply quiet_bind; [apply quiet_when|intros _; apply quiet_ret].
  - destruct (_ || _).
    + apply quiet_bind; [apply quiet_when|intros _; apply quiet_ret].
    + apply quiet_bind; [apply quiet_point|intros r].
      apply quiet_bind; [apply quiet_verdict|intros _; apply quiet_ret].
Qed.

Lemma quiet_play_games n : never_raises (play_games n).
Proof.
  induction n as [|n IH]; simpl; [apply quiet_ret|].
  apply quiet_bind; [apply quiet_playToWin|intros won].
  apply quiet_bind; [exact IH|intros later; apply quiet_ret].
Qed.

Lemma quiet_test : never_raises test.
Proof.
  unfold test.
  apply quiet_bind; [apply quiet_print|intros _].
  apply quiet_bind; [apply quiet_playToReplay|intros replay].
  apply quiet_bind; [|intros _; apply quiet_ret].
  apply quiet_while; intros _.
  apply quiet_bind; [apply quiet_print|intros _; apply quiet_playToReplay].
Qed.

Lemma silent_ret {A} (a : A) : prints_nothing (ret a).
Proof. intros w x w' E; inversion E; reflexivity. Qed.

Lemma silent_bind {A B} (m : M A) (k : A -> M B) :
  prints_nothing m -> (forall a, prints_nothing (k a)) -> prints_nothing (bind m k).
Proof.
  intros Hm Hk w b w' E; unfold bind in E.
  destruct (m w) as [a w1| |] eqn:Em; try discriminate.
  rewrite (Hk _ _ _ _ E); exact (Hm _ _ _ Em).
Qed.

Lemma silent_when_not m : prints_nothing (when false m).
Proof. apply silent_ret. Qed.

Lemma silent_randint lo hi : prints_nothing (randint lo hi).
Proof.
  intros w a w' E; unfold randint in E.
  destruct (entropy w); inversion E; reflexivity.
Qed.

Lemma silent_while_fuel {St} fuel (cond : St -> bool) body :
  (forall s, prints_nothing (body s)) ->
  forall s, prints_nothing (while_fuel fuel cond body s).
Proof.
  intros Hbody; induction fuel as [|fuel IH]; intros s; simpl.
  - intros w a w' E; discriminate.
  - destruct (cond s); [|apply silent_ret].
    apply silent_bind; auto.
Qed.

Lemma silent_roll2 : prints_nothing (roll2 false).
Proof.
  unfold roll2.
  apply silent_bind; [apply silent_randint|intros t1].
  apply silent_bind; [apply silent_randint|intros t2].
  apply silent_bind; [apply silent_when_not|intros _; apply silent_ret].
Qed.

Lemma silent_comeOut : prints_nothing (comeOut false).
Proof.
  unfold comeOut.
  apply silent_bind; [apply silent_when_not|intros _].
  apply silent_bind; [apply silent_roll2|intros t].
  apply silent_bind; [apply silent_when_not|intros _; apply silent_ret].
Qed.

Lemma silent_point target : prints_nothing (point target false).
Proof.
  unfold point.
  apply silent_bind; [apply silent_when_not|intros _].
  apply silent_bind; [apply silent_roll2|intros t].
  apply silent_bind; [|intros t'; apply silent_ret].
  intros w; unfold while.
  apply silent_while_fuel; intros _; apply silent_roll2.
Qed.

Lemma silent_playToWin : prints_nothing (playToWin false).
Proof.
  unfold playToWin.
  apply silent_bind; [apply silent_comeOut|intros t].
  apply silent_bind; [|intros r; apply silent_ret].
  destruct (_ || _).
  - apply silent_bind; [apply silent_when_not|intros _; apply silent_ret].
  - destruct (_ || _).
    + apply silent_bind; [apply silent_when_not|intros _; apply silent_ret].
    + apply silent_bind; [apply silent_point|intros r].
      apply silent_bind; [apply silent_when_not|intros _; apply silent_ret].
Qed.

Lemma silent_playToReplay : prints_nothing (playToReplay false).
Proof.
  unfold playToReplay.
  apply silent_bind; [apply silent_comeOut|intros t].
  apply silent_bind; [|intros r; apply silent_ret].
  destruct (_ || _).
  - apply silent_bind; [apply silent_when_not|intros _; apply silent_ret].
  - destruct (_ || _).
    + apply silent_bind; [apply silent_when_not|intros _; apply silent_ret].
    + apply silent_bind; [apply silent_point|intros r].
      apply silent_bind; [apply silent_when_not|intros _; apply silent_ret].
Qed.

(** A property of the first state that every iteration restores holds when
    the loop is left. *)
Lemma while_fuel_invariant {St} (P : St -> Prop) (cond : St -> bool) body :
  (forall s w s' w', body s w = Ok s' w' -> P s') ->
  forall fuel s w s' w',
    P s -> while_fuel fuel cond body s w = Ok s' w' -> P s'.
Proof.
  intros Hbody; induction fuel as [|fuel IH]; intros s w s' w' Hs E;
    simpl in E; [discriminate|].
  destruct (cond s).
  - unfold bind in E; destruct (body s w) as [s1 w1| |] eqn:Eb; try discriminate.
    eapply IH; [|exact E]; eauto.
  - inversion E; subst; exact Hs.
Qed.

(** A loop that returns was not entered, or returns from its body. *)
Lemma while_fuel_last {St} (cond : St -> bool) body :
  forall fuel s w s' w',
    while_fuel fuel cond body s w = Ok s' w' ->
    (s' = s /\ w' = w) \/ (exists s0 w0, body s0 w0 = Ok s' w').
Proof.
  induction fuel as [|fuel IH]; intros s w s' w' E; simpl in E; [discriminate|].
  destruct (cond s).
  - unfold bind in E; destruct (body s w) as [s1 w1| |] eqn:Eb; try discriminate.
    destruct (IH _ _ _ _ E) as [[-> ->]|H]; [right; eauto|right; exact H].
  - inversion E; subst; left; split; reflexivity.
Qed.

Lemma roll2_returns verbose w sum w' :
  roll2 verbose w = Ok sum w' ->
  exists a b,
    entropy w = a :: b :: entropy w'
    /\ sum = roll_sum (a, b)
    /\ stdout w' = stdout w ++ narrate verbose [threw (a, b)].
Proof.
  destruct w as [[|a [|b rest]] out]; intros E.
  - rewrite roll2_starved in E by (simpl; lia); discriminate.
  - rewrite roll2_starved in E by (simpl; lia); discriminate.
  - rewrite roll2_run in E; inversion E; subst; simpl.
    exists a, b; repeat split.
Qed.

(** Whatever [point] returns, its last sum is the sum of a roll that left
    the loop. *)
Lemma point_returns_roll target verbose w win w' :
  point target verbose w = Ok win w' ->
  exists total,
    2 <= total <= 12
    /\ keeps_rolling target total = false
    /\ win = (total =? target).
Proof.
  unfold point, bind; intros E.
  destruct (when verbose _ w) as [[] w0| |]; try discriminate.
  destruct (roll2 verbose w0) as [total0 w1| |] eqn:E0; try discriminate.
  destruct (while _ _ total0 w1) as [total w2| |] eqn:Ew; try discriminate.
  inversion E; subst; exists total; unfold while in Ew.
  split; [|split; [exact (while_fuel_exit _ _ _ _ _ _ _ Ew)|reflexivity]].
  apply (while_fuel_invariant (fun t => 2 <= t <= 12) _ _) in Ew; [exact Ew| |].
  - intros _ u t u' Er.
    destruct (roll2_returns _ _ _ _ Er) as (a & b & _ & -> & _).
    apply roll_sum_range.
  - destruct (roll2_returns _ _ _ _ E0) as (a & b & _ & -> & _).
    apply roll_sum_range.
Qed.

Lemma in_point_set target :
  In target [4; 5; 6; 8; 9; 10] ->
  is_natural target = false /\ is_craps target = false.
Proof. unfold is_natural, is_craps; simpl; lia. Qed.

Lemma keeps_rolling_Forall target (pre : list roll) :
  Forall (fun r => roll_sum r <> 7 /\ roll_sum r <> target) pre ->
  Forall (fun r => keeps_rolling target (roll_sum r) = true) pre.
Proof.
  apply Forall_impl; intros r Hr; now apply keeps_rolling_true.
Qed.

(** ** The dice *)

(** X1: when [roll2] returns it has taken exactly the next two entries of
    the script, each shown as a face between 1 and 6; it returns the sum of
    the two faces, between 2 and 12, and prints the throw when verbose and
    nothing otherwise. *)
Theorem roll2_two_dice :
  forall verbose w sum w',
    roll2 verbose w = Ok sum w' ->
    exists a b,
      entropy w = a :: b :: entropy w'
      /\ sum = face a + face b
      /\ 1 <= face a <= 6
      /\ 1 <= face b <= 6
      /\ 2 <= sum <= 12
      /\ stdout w' = stdout w ++ narrate verbose [threw (a, b)].
Proof.
  intros verbose w sum w' E.
  destruct (roll2_returns _ _ _ _ E) as (a & b & He & -> & Ho).
  exists a, b.
  pose proof (face_range a); pose proof (face_range b).
  pose proof (roll_sum_range (a, b)).
  repeat split; try assumption; try reflexivity; lia.
Qed.

Lemma roll2_two_dice_witness :
  exists a b,
    [9; 4; 1] = a :: b :: [1]
    /\ 7 = face a + face b
    /\ 1 <= face a <= 6
    /\ 1 <= face b <= 6
    /\ 2 <= 7 <= 12
    /\ [threw (9, 4)] = [] ++ narrate true [threw (a, b)].
Proof.
  apply (roll2_two_dice true (mkWorld [9; 4; 1] []) 7
           (mkWorld [1] [threw (9, 4)])).
  reflexivity.
Defined.

(** X2: [comeOut] makes one roll and no more: on a script with two entries
    or more it takes the first two, returns the sum of that roll as it is
    and, when verbose, prints its three lines; on a shorter script it is
    still waiting for dice. *)
Theorem comeOut_one_roll :
  forall verbose w,
    match entropy w with
    | a :: b :: rest =>
        comeOut verbose w
        = Ok (roll_sum (a, b))
            (mkWorld rest (stdout w ++ narrate verbose (come_out_lines (a, b))))
    | _ => comeOut verbose w = Starved
    end.
Proof.
  intros verbose [[|a [|b rest]] out]; cbn [entropy stdout].
  - apply comeOut_starved; simpl; lia.
  - apply comeOut_starved; simpl; lia.
  - apply comeOut_run.
Qed.

(** ** A whole game through the point phase *)

Lemma point_game_lines verbose (out : list line) r0 rolls (l : line) :
  ((out ++ narrate verbose (come_out_lines r0))
   ++ narrate verbose (point_lines rolls)) ++ narrate verbose [l]
  = out ++ narrate verbose (come_out_lines r0 ++ point_lines rolls ++ [l]).
Proof.
  destruct verbose; simpl; rewrite ?app_nil_r; [|reflexivity].
  rewrite <- !app_assoc; reflexivity.
Qed.

(** X3: a game of [playToWin] whose come-out roll [r0] sets a point (4, 5,
    6, 8, 9 or 10), followed by rolls [pre] that show neither 7 nor the
    point and then by a roll [s] that shows one of them, ends at [s]: the
    player wins exactly when [s] repeats the point, the later dice are
    left, and the verbose game prints the come-out, every throw up to [s]
    and the pass or the seven-out. *)
Theorem playToWin_point_game :
  forall verbose (r0 : roll) pre s post (tail : list Z) out,
    In (roll_sum r0) [4; 5; 6; 8; 9; 10] ->
    Forall (fun r => roll_sum r <> 7 /\ roll_sum r <> roll_sum r0) pre ->
    roll_sum s = 7 \/ roll_sum s = roll_sum r0 ->
    playToWin verbose (mkWorld (dice (r0 :: pre ++ s :: post) ++ tail) out)
    = Ok (roll_sum s =? roll_sum r0)
        (mkWorld (dice post ++ tail)
           (out ++ narrate verbose
                     (come_out_lines r0 ++ point_lines (pre ++ [s])
                      ++ [if roll_sum s =? roll_sum r0
                          then pass_msg else seven_out_msg]))).
Proof.
  intros verbose [a b] pre s post tail out Hpoint Hpre Hs.
  destruct (in_point_set _ Hpoint) as [Hn Hc].
  cbn [dice app]; unfold playToWin.
  rewrite (bind_Ok _ _ _ _ _ (comeOut_run _ _ _ _ _)).
  unfold is_natural in Hn; unfold is_craps in Hc; rewrite Hn, Hc.
  rewrite split_script.
  unfold bind at 1.
  unfold bind at 1.
  rewrite (point_first_stop _ verbose pre s _ _ (keeps_rolling_Forall _ _ Hpre))
    by now apply keeps_rolling_false.
  unfold bind, ret.
  rewrite <- (point_game_lines verbose out (a, b) (pre ++ [s])).
  destruct (roll_sum s =? roll_sum (a, b)); rewrite when_print; reflexivity.
Qed.

Lemma playToWin_point_game_witness :
  playToWin true (mkWorld (dice ((1, 3) :: [(2, 3)] ++ (2, 2) :: [(6, 6)]) ++ [5]) [])
  = Ok true
      (mkWorld (dice [(6, 6)] ++ [5])
         ([] ++ narrate true
                  (come_out_lines (1, 3) ++ point_lines ([(2, 3)] ++ [(2, 2)])
                   ++ [pass_msg])))
  /\ playToWin false (mkWorld (dice ((1, 3) :: [] ++ (3, 4) :: []) ++ []) [])
     = Ok false (mkWorld [] []).
Proof.
  split.
  - apply (playToWin_point_game true (1, 3) [(2, 3)] (2, 2) [(6, 6)] [5] []).
    + simpl; tauto.
    + repeat constructor; discriminate.
    + right; reflexivity.
  - apply (playToWin_point_game false (1, 3) [] (3, 4) [] [] []).
    + simpl; tauto.
    + constructor.
    + left; reflexivity.
Defined.

(** X4: the same game under [playToReplay]: the player may play again
    exactly when [s] repeats the point, and must yield the dice when [s]
    shows 7; dice and printing are as for [playToWin]. *)
Theorem playToReplay_point_game :
  forall verbose (r0 : roll) pre s post (tail : list Z) out,
    In (roll_sum r0) [4; 5; 6; 8; 9; 10] ->
    Forall (fun r => roll_sum r <> 7 /\ roll_sum r <> roll_sum r0) pre ->
    roll_sum s = 7 \/ roll_sum s = roll_sum r0 ->
    playToReplay verbose (mkWorld (dice (r0 :: pre ++ s :: post) ++ tail) out)
    = Ok (roll_sum s =? roll_sum r0)
        (mkWorld (dice post ++ tail)
           (out ++ narrate verbose
                     (come_out_lines r0 ++ point_lines (pre ++ [s])
                      ++ [if roll_sum s =? roll_sum r0
                          then pass_msg else seven_out_msg]))).
Proof.
  intros verbose [a b] pre s post tail out Hpoint Hpre Hs.
  destruct (in_point_set _ Hpoint) as [Hn Hc].
  cbn [dice app]; unfold playToReplay.
  rewrite (bind_Ok _ _ _ _ _ (comeOut_run _ _ _ _ _)).
  unfold is_natural in Hn; unfold is_craps in Hc; rewrite Hn, Hc.
  rewrite split_script.
  unfold bind at 1.
  unfold bind at 1.
  rewrite (point_first_stop _ verbose pre s _ _ (keeps_rolling_Forall _ _ Hpre))
    by now apply keeps_rolling_false.
  unfold bind, ret.
  rewrite <- (point_game_lines verbose out (a, b) (pre ++ [s])).
  destruct (roll_sum s =? roll_sum (a, b)); rewrite when_print; reflexivity.
Qed.

Lemma playToReplay_point_game_witness :
  playToReplay true (mkWorld (dice ((4, 5) :: [(1, 1); (6, 6)] ++ (1, 6) :: []) ++ []) [])
  = Ok false
      (mkWorld (dice [] ++ [])
         ([] ++ narrate true
                  (come_out_lines (4, 5) ++ point_lines ([(1, 1); (6, 6)] ++ [(1, 6)])
                   ++ [seven_out_msg]))).
Proof.
  apply (playToReplay_point_game true (4, 5) [(1, 1); (6, 6)] (1, 6) [] [] []).
  - simpl; tauto.
  - repeat constructor; discriminate.
  - left; reflexivity.
Defined.

(** ** Printing and the result *)

(** X5: with [verbose] false nothing is printed: when [playToWin],
    [playToReplay], [point], [comeOut] or [roll2] returns, the terminal is
    as it was before the call. *)
Theorem silent_calls_print_nothing :
  forall target w,
    (forall win w', playToWin false w = Ok win w' -> stdout w' = stdout w)
    /\ (forall replay w', playToReplay false w = Ok replay w' -> stdout w' = stdout w)
    /\ (forall win w', point target false w = Ok win w' -> stdout w' = stdout w)
    /\ (forall sum w', comeOut false w = Ok sum w' -> stdout w' = stdout w)
    /\ (forall sum w', roll2 false w = Ok sum w' -> stdout w' = stdout w).
Proof.
  intros target w; repeat split; intros a w' E.
  - exact (silent_playToWin _ _ _ E).
  - exact (silent_playToReplay _ _ _ E).
  - exact (silent_point target _ _ _ E).
  - exact (silent_comeOut _ _ _ E).
  - exact (silent_roll2 _ _ _ E).
Qed.

Lemma silent_calls_print_nothing_witness :
  let w := mkWorld [2; 2; 4; 5; 1; 3; 6] [welcome_msg] in
  stdout (mkWorld [6] [welcome_msg]) = stdout w
  /\ stdout (mkWorld [6] [welcome_msg]) = stdout w
  /\ stdout (mkWorld [4; 5; 1; 3; 6] [welcome_msg]) = stdout w
  /\ stdout (mkWorld [4; 5; 1; 3; 6] [welcome_msg]) = stdout w
  /\ stdout (mkWorld [4; 5; 1; 3; 6] [welcome_msg]) = stdout w.
Proof.
  pose proof (silent_calls_print_nothing 4
                (mkWorld [2; 2; 4; 5; 1; 3; 6] [welcome_msg]))
    as (H1 & H2 & H3 & H4 & H5).
  split; [exact (H1 true (mkWorld [6] [welcome_msg]) eq_refl)|].
  split; [exact (H2 true (mkWorld [6] [welcome_msg]) eq_refl)|].
  split; [exact (H3 true (mkWorld [4; 5; 1; 3; 6] [welcome_msg]) eq_refl)|].
  split; [exact (H4 4 (mkWorld [4; 5; 1; 3; 6] [welcome_msg]) eq_refl)|].
  exact (H5 4 (mkWorld [4; 5; 1; 3; 6] [welcome_msg]) eq_refl).
Defined.

Lemma last_line (before : list line) (l : line) : last (before ++ [l]) [] = l.
Proof. apply last_last. Qed.

(** The last line of a verbose game is its verdict. *)
Lemma verdict_of_game verbose (decided : bool -> bool) w (result : bool) w' :
  (target <- comeOut verbose ;;
   result <-
     (if (target =? 7) || (target =? 11) then
        when verbose (print natural_msg) ;;; ret (decided true)
      else if (target =? 2) || (target =? 3) || (target =? 12) then
        when verbose (print craps_msg) ;;; ret (decided false)
      else
        result <- point target verbose ;;
        when verbose (if result : bool then print pass_msg else print seven_out_msg) ;;;
        ret result) ;;
   ret result) w = Ok result w' ->
  verbose = true ->
  (last (stdout w') [] = natural_msg /\ result = decided true)
  \/ (last (stdout w') [] = craps_msg /\ result = decided false)
  \/ (last (stdout w') [] = pass_msg /\ result = true)
  \/ (last (stdout w') [] = seven_out_msg /\ result = false).
Proof.
  intros E ->; unfold bind in E.
  destruct (comeOut true w) as [target w1| |]; try discriminate.
  destruct (_ || _).
  - simpl in E; inversion E; subst; simpl; rewrite last_line; auto.
  - destruct (_ || _).
    + simpl in E; inversion E; subst; simpl; rewrite last_line; auto.
    + destruct (point target true w1) as [[|] w2| |]; try discriminate;
        simpl in E; inversion E; subst; simpl; rewrite last_line; auto.
Qed.

(** X6: the last line a verbose [playToWin] prints tells what it returns:
    it returns true after the line of the natural or of the pass, and
    false after the line of the craps or of the seven-out; it ends on no
    other line. *)
Theorem playToWin_verdict :
  forall w win w',
    playToWin true w = Ok win w' ->
    (win = true /\ (last (stdout w') [] = natural_msg \/ last (stdout w') [] = pass_msg))
    \/ (win = false
        /\ (last (stdout w') [] = craps_msg \/ last (stdout w') [] = seven_out_msg)).
Proof.
  intros w win w' E.
  destruct (verdict_of_game true (fun b => b) w win w' E eq_refl)
    as [[H ->]|[[H ->]|[[H ->]|[H ->]]]]; auto.
Qed.

Lemma playToWin_verdict_witness :
  let w' := mkWorld [] (come_out_lines (6, 6) ++ [craps_msg]) in
  (false = true /\ (last (stdout w') [] = natural_msg \/ last (stdout w') [] = pass_msg))
  \/ (false = false
      /\ (last (stdout w') [] = craps_msg \/ last (stdout w') [] = seven_out_msg)).
Proof.
  apply (playToWin_verdict (mkWorld [6; 6] []) false
           (mkWorld [] (come_out_lines (6, 6) ++ [craps_msg]))).
  reflexivity.
Defined.

(** X7: the last line a verbose [playToReplay] prints tells what it
    returns: it returns true (play again) after the line of the craps or of
    the pass, and false (yield the dice) after the line of the natural or
    of the seven-out. *)
Theorem playToReplay_verdict :
  forall w replay w',
    playToReplay true w = Ok replay w' ->
    (replay = true
     /\ (last (stdout w') [] = craps_msg \/ last (stdout w') [] = pass_msg))
    \/ (replay = false
        /\ (last (stdout w') [] = natural_msg \/ last (stdout w') [] = seven_out_msg)).
Proof.
  intros w replay w' E.
  destruct (verdict_of_game true negb w replay w' E eq_refl)
    as [[H ->]|[[H ->]|[[H ->]|[H ->]]]]; auto.
Qed.

Lemma playToReplay_verdict_witness :
  let w' := mkWorld [] (come_out_lines (5, 6) ++ [natural_msg]) in
  (false = true
   /\ (last (stdout w') [] = craps_msg \/ last (stdout w') [] = pass_msg))
  \/ (false = false
      /\ (last (stdout w') [] = natural_msg \/ last (stdout w') [] = seven_out_msg)).
Proof.
  apply (playToReplay_verdict (mkWorld [5; 6] []) false
           (mkWorld [] (come_out_lines (5, 6) ++ [natural_msg]))).
  reflexivity.
Defined.

(** ** Targets no roll can show *)

(** X8: called with a target below 2 or above 12, which no pair of dice
    shows, [point] can only be left by a 7: it returns false or is still
    rolling, and never returns true. *)
Theorem point_impossible_target :
  forall target verbose w,
    target < 2 \/ 12 < target ->
    match point target verbose w with
    | Ok win _ => win = false
    | Raise _ _ => False
    | Starved => True
    end.
Proof.
  intros target verbose w Ht.
  destruct (point target verbose w) as [win w'|e w'|] eqn:E; [| |exact I].
  - destruct (point_returns_roll _ _ _ _ _ E) as (total & Hr & _ & ->).
    lia.
  - exact (point_never_raises _ _ _ _ _ E).
Qed.

Lemma point_impossible_target_witness :
  match point 13 false (mkWorld [6; 6; 3; 4; 1; 1] []) with
  | Ok win _ => win = false
  | Raise _ _ => False
  | Starved => True
  end.
Proof.
  apply (point_impossible_target 13 false (mkWorld [6; 6; 3; 4; 1; 1] [])).
  right; lia.
Defined.

(** ** The odds *)

Lemma uses_play_games n : uses_dice (2 * n) (play_games n).
Proof.
  induction n as [|n IH]; simpl play_games; [apply uses_ret|].
  replace (2 * S n)%nat with (2 + 2 * n)%nat by lia.
  apply uses_bind; [apply uses_playToWin|intros won].
  replace (2 * n)%nat with (2 * n + 0)%nat by lia.
  apply uses_bind; [exact IH|intros later; apply uses_ret].
Qed.

(** What a call of [computeOdds] that returns has gone through. *)
Lemma computeOdds_returns numGames w odds w' :
  computeOdds numGames w = Ok odds w' ->
  exists results w1,
    play_games (Z.to_nat numGames) w = Ok results w1
    /\ numGames <> 0
    /\ odds = (inject_Z (count_wins results) / inject_Z numGames)%Q
    /\ w' = mkWorld (entropy w1)
              (stdout w1 ++ report numGames (count_wins results) odds).
Proof.
  rewrite computeOdds_run; intros E.
  destruct (play_games (Z.to_nat numGames) w) as [results w1| |]; try discriminate.
  cbn zeta in E; destruct (numGames =? 0) eqn:E0; [discriminate|].
  inversion E; subst; exists results, w1; repeat split; lia.
Qed.

Lemma computeOdds_raises numGames w e w' :
  computeOdds numGames w = Raise e w' ->
  numGames = 0 /\ e = ZeroDivisionError /\ w' = w.
Proof.
  rewrite computeOdds_run; intros E.
  destruct (play_games (Z.to_nat numGames) w) as [results w1|e1 w1|] eqn:Ep;
    try discriminate.
  - cbn zeta in E; destruct (numGames =? 0) eqn:E0; [|discriminate].
    assert (numGames = 0) by lia; subst numGames.
    simpl in Ep; inversion Ep; inversion E; subst; auto.
  - exfalso; exact (quiet_play_games _ _ _ _ Ep).
Qed.

(** X9: the only exception [computeOdds] lets out is the
    [ZeroDivisionError] of its division, and only for a count of 0 games,
    before anything is played or printed. *)
Theorem computeOdds_raises_only_on_zero :
  forall numGames w e w',
    computeOdds numGames w = Raise e w' ->
    numGames = 0 /\ e = ZeroDivisionError /\ w' = w.
Proof.
  intros numGames w e w' E; rewrite computeOdds_run in E.
  destruct (play_games (Z.to_nat numGames) w) as [results w1|e1 w1|] eqn:Ep;
    try discriminate.
  - cbn zeta in E; destruct (numGames =? 0) eqn:E0; [|discriminate].
    assert (numGames = 0) by lia; subst numGames.
    simpl in Ep; inversion Ep; inversion E; subst; auto.
  - exfalso; exact (quiet_play_games _ _ _ _ Ep).
Qed.

Lemma computeOdds_raises_only_on_zero_witness :
  computeOdds 0 (mkWorld [3; 4] [welcome_msg])
  = Raise ZeroDivisionError (mkWorld [3; 4] [welcome_msg])
  /\ 0 = 0 /\ ZeroDivisionError = ZeroDivisionError
  /\ mkWorld [3; 4] [welcome_msg] = mkWorld [3; 4] [welcome_msg].
Proof.
  split; [reflexivity|].
  apply (computeOdds_raises_only_on_zero 0 (mkWorld [3; 4] [welcome_msg])
           ZeroDivisionError (mkWorld [3; 4] [welcome_msg])).
  reflexivity.
Defined.

(** X10: for a positive count of games the odds [computeOdds] returns lie
    between 0 and 1. *)
Theorem computeOdds_between_0_and_1 :
  forall numGames w odds w',
    0 < numGames ->
    computeOdds numGames w = Ok odds w' ->
    (0 <= odds <= 1)%Q.
Proof.
  intros numGames w odds w' HN E.
  destruct (computeOdds_returns _ _ _ _ E) as (results & w1 & Ep & _ & -> & _).
  pose proof (play_games_length _ _ _ _ Ep) as Hlen.
  pose proof (count_wins_bounds results) as Hb.
  rewrite Hlen, Z2Nat.id in Hb by lia.
  rewrite (quotient_of_counts _ _ HN).
  unfold Qle; simpl.
  rewrite Z2Pos.id by lia; lia.
Qed.

Lemma computeOdds_between_0_and_1_witness :
  (0 <= inject_Z 1 / inject_Z 3 <= 1)%Q.
Proof.
  apply (computeOdds_between_0_and_1 3
           (mkWorld (dice [(1, 1); (5, 6); (2, 2); (3, 4)]) [])
           (inject_Z 1 / inject_Z 3)%Q
           (mkWorld [] (report 3 1 (inject_Z 1 / inject_Z 3)%Q))).
  - lia.
  - reflexivity.
Defined.

(** X11: every game rolls the dice at least once: when [computeOdds]
    returns it has taken two entries of the script or more for each of its
    games, and printed its three closing lines and nothing else. *)
Theorem computeOdds_takes_dice :
  forall numGames w odds w',
    computeOdds numGames w = Ok odds w' ->
    (List.length (entropy w') + 2 * Z.to_nat numGames <= List.length (entropy w))%nat
    /\ exists wins, stdout w' = stdout w ++ report numGames wins odds.
Proof.
  intros numGames w odds w' E.
  destruct (computeOdds_returns _ _ _ _ E) as (results & w1 & Ep & _ & _ & ->).
  split.
  - exact (uses_play_games _ _ _ _ Ep).
  - exists (count_wins results); cbn [stdout]; f_equal.
    clear E; revert w results w1 Ep.
    induction (Z.to_nat numGames) as [|n IH]; intros w results w1 Ep; simpl in Ep.
    + inversion Ep; reflexivity.
    + unfold bind in Ep.
      destruct (playToWin false w) as [won w2| |] eqn:Eg; try discriminate.
      destruct (play_games n w2) as [later w3| |] eqn:El; try discriminate.
      inversion Ep; subst.
      rewrite (IH _ _ _ El); exact (silent_playToWin _ _ _ Eg).
Qed.

Lemma computeOdds_takes_dice_witness :
  (List.length (@nil Z) + 2 * Z.to_nat 2 <= List.length [1; 1; 2; 2; 3; 4])%nat
  /\ exists wins,
       report 2 0 (inject_Z 0 / inject_Z 2)%Q
       = [] ++ report 2 wins (inject_Z 0 / inject_Z 2)%Q.
Proof.
  apply (computeOdds_takes_dice 2 (mkWorld [1; 1; 2; 2; 3; 4] [])
           (inject_Z 0 / inject_Z 2)%Q
           (mkWorld [] (report 2 0 (inject_Z 0 / inject_Z 2)%Q))).
  reflexivity.
Defined.

(** ** The command line *)

(** X12: a first argument that is neither [test] nor [odds] makes [main] do
    nothing at all: no die is taken, nothing is printed, nothing is raised,
    whatever arguments follow. *)
Theorem main_unknown_command :
  forall (py_int : string -> option Z) prog cmd more w,
    cmd <> "test" -> cmd <> "odds" ->
    main py_int (prog :: cmd :: more) w = Ok tt w.
Proof.
  intros py_int prog cmd more w Ht Ho.
  apply String.eqb_neq in Ht; apply String.eqb_neq in Ho.
  unfold main; cbn [List.length Nat.ltb Nat.leb].
  unfold bind, getitem; cbn [nth_error]; unfold ret.
  rewrite Ht, Ho; reflexivity.
Qed.

Lemma main_unknown_command_witness :
  main ascii_int ["craps.py"; "play"; "12"] (mkWorld [3; 4] [])
  = Ok tt (mkWorld [3; 4] []).
Proof.
  apply (main_unknown_command ascii_int "craps.py" "play" ["12"] (mkWorld [3; 4] []));
    discriminate.
Defined.

Lemma main_quiet_game w e w' :
  (playToWin true ;;; ret tt) w = Raise e w' -> False.
Proof.
  apply (quiet_bind _ _ (quiet_playToWin true) (fun _ => quiet_ret tt)).
Qed.

Lemma odds_run_raises numGames w e w' :
  (computeOdds numGames ;;; ret tt) w = Raise e w' ->
  numGames = 0 /\ e = ZeroDivisionError /\ w' = w.
Proof.
  unfold bind; intros E.
  destruct (computeOdds numGames w) as [odds w1|e1 w1|] eqn:Ec; try discriminate.
  inversion E; subst; exact (computeOdds_raises _ _ _ _ Ec).
Qed.

(** X13: [main] lets an exception out only on the command [odds] followed
    by a game count: the [ValueError] of [int] when [int] does not accept
    the count, the [ZeroDivisionError] of the division when the count reads
    as 0; in both cases nothing has been played or printed.  Its indexing
    of the arguments never fails, and the other commands raise nothing. *)
Theorem main_raises_only_on_odds_count :
  forall (py_int : string -> option Z) args w e w',
    main py_int args w = Raise e w' ->
    nth_error args 1 = Some "odds"
    /\ w' = w
    /\ exists s,
         nth_error args 2 = Some s
         /\ ((py_int s = None /\ e = ValueError s)
             \/ (py_int s = Some 0 /\ e = ZeroDivisionError)).
Proof.
  intros py_int args w e w' E.
  destruct args as [|prog [|cmd [|s more]]].
  - exfalso; exact (main_quiet_game _ _ _ E).
  - exfalso; exact (main_quiet_game _ _ _ E).
  - exfalso; revert E; unfold main; cbn [List.length Nat.ltb Nat.leb].
    unfold bind at 1, getitem at 1; cbn [nth_error]; unfold ret at 1.
    destruct (cmd =? "test")%string; [apply quiet_test|].
    unfold bind at 1, getitem at 1; cbn [nth_error]; unfold ret at 1.
    destruct (cmd =? "odds")%string; [|discriminate].
    unfold bind at 1, ret at 1; intros E.
    destruct (odds_run_raises _ _ _ _ E) as [H _]; discriminate H.
  - revert E; unfold main; cbn [List.length Nat.ltb Nat.leb].
    unfold bind at 1, getitem at 1; cbn [nth_error]; unfold ret at 1.
    destruct (cmd =? "test")%string eqn:Et;
      [intros E; exfalso; exact (quiet_test _ _ _ E)|].
    unfold bind at 1, getitem at 1; cbn [nth_error]; unfold ret at 1.
    destruct (cmd =? "odds")%string eqn:Eo; [|discriminate].
    apply String.eqb_eq in Eo; subst cmd.
    unfold bind at 1 2, getitem at 1; cbn [nth_error]; unfold ret at 1, int.
    destruct (py_int s) as [n|] eqn:Es.
    + unfold ret at 1; intros E.
      destruct (odds_run_raises _ _ _ _ E) as (-> & -> & ->).
      split; [reflexivity|split; [reflexivity|]].
      exists s; split; [reflexivity|right; auto].
    + unfold raise; intros E; inversion E; subst.
      split; [reflexivity|split; [reflexivity|]].
      exists s; split; [reflexivity|left; auto].
Qed.

Lemma main_raises_only_on_odds_count_witness :
  (nth_error ["craps.py"; "odds"; " 0"] 1 = Some "odds"
   /\ mkWorld [3; 4] [] = mkWorld [3; 4] []
   /\ exists s,
        nth_error ["craps.py"; "odds"; " 0"] 2 = Some s
        /\ ((ascii_int s = None /\ ZeroDivisionError = ValueError s)
            \/ (ascii_int s = Some 0 /\ ZeroDivisionError = ZeroDivisionError)))
  /\ (nth_error ["craps.py"; "odds"; "1e3"] 1 = Some "odds"
      /\ mkWorld [3; 4] [] = mkWorld [3; 4] []
      /\ exists s,
           nth_error ["craps.py"; "odds"; "1e3"] 2 = Some s
           /\ ((ascii_int s = None /\ ValueError "1e3" = ValueError s)
               \/ (ascii_int s = Some 0 /\ ValueError "1e3" = ZeroDivisionError))).
Proof.
  split.
  - apply (main_raises_only_on_odds_count ascii_int ["craps.py"; "odds"; " 0"]
             (mkWorld [3; 4] []) ZeroDivisionError (mkWorld [3; 4] [])).
    reflexivity.
  - apply (main_raises_only_on_odds_count ascii_int ["craps.py"; "odds"; "1e3"]
             (mkWorld [3; 4] []) (ValueError "1e3") (mkWorld [3; 4] [])).
    reflexivity.
Defined.

(** ** The test loop *)

Lemma again_takes_dice :
  uses_dice 1 (print again_msg ;;; playToReplay true).
Proof.
  apply (uses_bind 0 1); [apply uses_print|intros _].
  apply (uses_weaken 2); [lia|apply uses_playToReplay].
Qed.

(** The loop of [test] goes through the announced games as long as they
    allow a replay. *)
Lemma test_loop_rounds k :
  forall replay w w',
    (later <- more_rounds k ;; ret (replay :: later)) w
    = Ok (repeat true k ++ [false]) w' ->
    while (fun replay : bool => replay)
      (fun _ => print again_msg ;;; playToReplay true) replay w
    = Ok false w'.
Proof.
  induction k as [|k IH]; intros replay w w' E.
  - simpl in E; inversion E; subst; reflexivity.
  - cbn [more_rounds repeat app] in E.
    unfold bind at 1 2 in E.
    destruct ((print again_msg ;;; playToReplay true) w) as [r w2| |] eqn:Eb;
      [|unfold bind in Eb, E; cbn in Eb; cbn in E;
        destruct (playToReplay true _); discriminate..].
    assert (Eb' := Eb); unfold bind in Eb'; cbn [print] in Eb'.
    unfold bind at 1 in E; cbn [print] in E; rewrite Eb' in E.
    unfold bind at 1 in E.
    destruct (more_rounds k w2) as [later w3| |] eqn:El; try discriminate.
    unfold ret in E; inversion E; subst.
    unfold while; cbn [while_fuel]; unfold bind at 1; rewrite Eb.
    rewrite test_loop_fuel
      by (pose proof (again_takes_dice _ _ _ Eb); lia).
    apply IH; unfold bind; rewrite El; unfold ret; congruence.
Qed.

(** X14: [test] plays until the player must yield the dice: when, after the
    welcome, the first [k] verbose games of [playToReplay] allow a replay
    and the next one does not, [test] returns after exactly these [k + 1]
    games, each but the first announced by "Playing again...". *)
Theorem test_plays_until_yield :
  forall k w w',
    rounds k w = Ok (repeat true k ++ [false]) w' ->
    test w = Ok tt w'.
Proof.
  intros k w w' E; unfold rounds in E; unfold test.
  unfold bind at 1 in E; unfold bind at 1; cbn [print] in *.
  unfold bind at 1 in E; unfold bind at 1.
  destruct (playToReplay true _) as [replay w1| |]; try discriminate.
  apply test_loop_rounds in E.
  exact (bind_Ok _ (fun _ => ret tt) _ _ _ E).
Qed.

Lemma test_plays_until_yield_witness :
  test (mkWorld (dice [(1, 1); (2, 2); (1, 3); (3, 4)]) [])
  = Ok tt
      (mkWorld []
         ([welcome_msg] ++ come_out_lines (1, 1) ++ [craps_msg]
          ++ [again_msg] ++ come_out_lines (2, 2) ++ point_lines [(1, 3)] ++ [pass_msg]
          ++ [again_msg] ++ come_out_lines (3, 4) ++ [natural_msg])).
Proof.
  apply (test_plays_until_yield 2
           (mkWorld (dice [(1, 1); (2, 2); (1, 3); (3, 4)]) [])).
  reflexivity.
Defined.

(** X15: [test] returns only after a game that makes the player yield the
    dice: the last line printed is that of a natural or of a seven-out,
    never that of a craps or of a pass. *)
Theorem test_ends_on_yield :
  forall w w',
    test w = Ok tt w' ->
    last (stdout w') [] = natural_msg \/ last (stdout w') [] = seven_out_msg.
Proof.
  intros w w' E; unfold test in E.
  unfold bind at 1 in E; cbn [print] in E.
  unfold bind at 1 in E.
  destruct (playToReplay true _) as [replay w1| |] eqn:E1; try discriminate.
  unfold bind in E.
  destruct (while _ _ replay w1) as [final w2| |] eqn:Ew; try discriminate.
  inversion E; subst w2; clear E.
  unfold while in Ew.
  pose proof (while_fuel_exit _ _ _ _ _ _ _ Ew) as Hf; cbn beta in Hf; subst final.
  assert (Hyield : forall u u', playToReplay true u = Ok false u' ->
            last (stdout u') [] = natural_msg \/ last (stdout u') [] = seven_out_msg).
  { intros u u' Eu.
    destruct (verdict_of_game true negb u false u' Eu eq_refl)
      as [[H _]|[[_ H]|[[_ H]|[H _]]]]; auto; discriminate H. }
  destruct (while_fuel_last _ _ _ _ _ _ _ Ew) as [[<- ->]|(s0 & w0 & Eb)].
  - exact (Hyield _ _ E1).
  - unfold bind in Eb; cbn [print] in Eb; exact (Hyield _ _ Eb).
Qed.

Lemma test_ends_on_yield_witness :
  let w' :=
    mkWorld []
      ([welcome_msg] ++ come_out_lines (1, 1) ++ [craps_msg]
       ++ [again_msg] ++ come_out_lines (2, 2) ++ point_lines [(3, 4)]
       ++ [seven_out_msg]) in
  last (stdout w') [] = natural_msg \/ last (stdout w') [] = seven_out_msg.
Proof.
  apply (test_ends_on_yield (mkWorld (dice [(1, 1); (2, 2); (3, 4)]) [])).
  reflexivity.
Defined.
